(** * EasyLogger: the day-rotating log writer (timeRotating.go)

    A shallow embedding of the rotating file writer of EasyLogger and the
    properties of its naming scheme, its retention and compression pass
    (the "mill"), and its open/write/close life cycle.

    Layout of the development:
    - Go's [strings], [time] and [path/filepath] library functions used by
      the writer, at the level of their documented behaviour;
    - the naming functions [newFileName] / [timeFromName] and the sort
      order [byFormatTime];
    - the selection part of [millRunOnce] as functions on lists;
    - the writer's methods in a state monad over an abstract operating
      system interface, with panics as a distinguished outcome;
    - an in-memory file system implementing that interface, on which the
      methods can be run. *)

From Stdlib Require Import ZArith Lia Ascii String List Bool.
From stdpp Require Import base option list gmap strings.

#[local] Set Warnings "-clear-no-such-hyp".

Local Open Scope Z_scope.

(** ** Errors

    Go's [error] values.  [ENOENT] is the only error the writer inspects
    (through [os.IsNotExist]); every other failure of the operating system
    is an opaque code.  [Wrapf] is [fmt.Errorf(prefix + "%s", err)]. *)

Inductive error : Type :=
  | ENOENT
  | EIO (code : nat)
  | ErrNew (msg : string)
  | Wrapf (prefix : string) (cause : error).

Definition os_IsNotExist (e : error) : bool :=
  match e with
  | ENOENT => true
  | _ => false
  end.

(** ** Constants of the package *)

Definition DefaultLogDir : string := "./Logs/".
Definition FileNameTimeFormat : string := "2006-01-02".
Definition FileNameExt : string := ".log".
Definition CompressSuffix : string := ".gz".

(** ** Strings *)

Definition len (s : string) : nat := String.length s.

(** [s[:n]] and [s[n:]] for [n <= len s]. *)
Definition slice_to (s : string) (n : nat) : string := String.substring 0 n s.
Definition slice_from (s : string) (n : nat) : string :=
  String.substring n (len s - n) s.

(** [strings.HasSuffix]:
    [len(s) >= len(suffix) && s[len(s)-len(suffix):] == suffix]. *)
Definition strings_HasSuffix (s suffix : string) : bool :=
  (len suffix <=? len s)%nat
  && String.eqb (slice_from s (len s - len suffix)) suffix.

(** [fn[:len(fn)-len(suffix)]], as written twice in the source. *)
Definition trim_suffix_len (s suffix : string) : string :=
  slice_to s (len s - len suffix).

(** ** Time

    A [Time] is an instant, counted in nanoseconds since
    0001-01-01T00:00:00 UTC, together with the offset (seconds east of
    UTC) of the zone it is presented in.  [time.Duration] is a signed
    64-bit count of nanoseconds. *)

Record Time : Type := mkTime { abs_ns : Z; zone_offset : Z }.

Definition Time_eqb (t u : Time) : bool :=
  (abs_ns t =? abs_ns u) && (zone_offset t =? zone_offset u).

Definition Duration : Type := Z.

Definition time_Second : Z := 1000000000.
Definition NanosecondPerDay : Z := 24 * 3600 * time_Second.

Definition minDuration : Z := - 2 ^ 63.
Definition maxDuration : Z := 2 ^ 63 - 1.

(** Two's complement wrap-around of a 64-bit signed integer. *)
Definition wrap64 (x : Z) : Z := (x + 2 ^ 63) mod 2 ^ 64 - 2 ^ 63.

(** [Duration(a) * b] on int64. *)
Definition Duration_mul (a b : Z) : Z := wrap64 (a * b).

Definition time_UTC (t : Time) : Time := mkTime (abs_ns t) 0.

(** [t.Before(u)] compares instants. *)
Definition time_Before (t u : Time) : bool := abs_ns t <? abs_ns u.

(** [t.Sub(u)]: the difference of the instants, saturated to the range of
    [Duration]. *)
Definition time_Sub (t u : Time) : Duration :=
  let d := abs_ns t - abs_ns u in
  if maxDuration <? d then maxDuration
  else if d <? minDuration then minDuration
  else d.

(** *** The proleptic Gregorian calendar *)

Definition isLeap (year : Z) : bool :=
  (year mod 4 =? 0) && (negb (year mod 100 =? 0) || (year mod 400 =? 0)).

(** [daysBefore[m]]: days in a non-leap year before month [m+1]. *)
Definition daysBefore (m : Z) : Z :=
  match m with
  | 0 => 0 | 1 => 31 | 2 => 59 | 3 => 90 | 4 => 120 | 5 => 151 | 6 => 181
  | 7 => 212 | 8 => 243 | 9 => 273 | 10 => 304 | 11 => 334 | _ => 365
  end.

Definition daysIn (m year : Z) : Z :=
  if (m =? 2) && isLeap year then 29
  else daysBefore m - daysBefore (m - 1).

(** Days from 0001-01-01 to the first of January of [year]. *)
Definition daysSinceEpoch (year : Z) : Z :=
  let y := year - 1 in
  365 * y + y / 4 - y / 100 + y / 400.

(** Days from 0001-01-01 to the given date. *)
Definition dateToDays (year month day : Z) : Z :=
  daysSinceEpoch year + daysBefore (month - 1)
  + (if isLeap year && (3 <=? month) then 1 else 0)
  + (day - 1).

(** [time.Date(year, month, day, hour, min, sec, nsec, loc)] for field
    values already in range (the only use in this package is by
    [time.Parse], which validates them first), in a zone [offset] seconds
    east of UTC. *)
Definition time_Date (year month day hour min sec nsec offset : Z) : Time :=
  mkTime
    ((dateToDays year month day * 86400 + hour * 3600 + min * 60 + sec
      - offset) * time_Second + nsec)
    offset.

(** Split a day count into the year and the day within the year, by
    400-, 100-, 4- and 1-year cycles. *)
Definition daysToYear (d : Z) : Z * Z :=
  let n400 := d / 146097 in
  let d1 := d - 146097 * n400 in
  let n100 := d1 / 36524 in
  let n100 := n100 - n100 / 4 in
  let d2 := d1 - 36524 * n100 in
  let n4 := d2 / 1461 in
  let d3 := d2 - 1461 * n4 in
  let n1 := d3 / 365 in
  let n1 := n1 - n1 / 4 in
  (400 * n400 + 100 * n100 + 4 * n4 + n1 + 1, d3 - 365 * n1).

(** Month and day of the month from the day within the year. *)
Definition ydayToMonthDay (leap : bool) (yday : Z) : Z * Z :=
  if leap && (yday =? 31 + 29 - 1) then (2, 29)
  else
    let day := if leap && (31 + 29 - 1 <? yday) then yday - 1 else yday in
    let month := day / 31 in
    let e := daysBefore (month + 1) in
    if e <=? day then (month + 2, day - e + 1)
    else (month + 1, day - daysBefore month + 1).

(** [t.Date()]: year, month and day of [t] in its zone. *)
Definition time_civil (t : Time) : Z * Z * Z :=
  let days := (abs_ns t + zone_offset t * time_Second) / NanosecondPerDay in
  let '(year, yday) := daysToYear days in
  let '(month, day) := ydayToMonthDay (isLeap year) yday in
  (year, month, day).

(** *** Formatting with the layout [FileNameTimeFormat]

    The package formats and parses times with this one layout; the two
    functions below are [Time.Format] and [time.Parse] on it: year in four
    digits, month and day in two, with dashes between. *)

Definition utod (u : Z) : ascii := ascii_of_nat (48 + Z.to_nat u).

Fixpoint utoa (fuel : nat) (u : Z) (acc : string) : string :=
  match fuel with
  | O => String (utod (u mod 10)) acc
  | S fuel' =>
      if u <? 10 then String (utod u) acc
      else utoa fuel' (u / 10) (String (utod (u mod 10)) acc)
  end.

Fixpoint zeros (n : nat) (acc : string) : string :=
  match n with
  | O => acc
  | S n' => String "0" (zeros n' acc)
  end.

(** [appendInt(b, x, width)] of package time, returning the text that is
    appended: a sign when negative, then the decimal digits, zero-padded
    to [width]. *)
Definition appendInt (x : Z) (width : nat) : string :=
  let u := Z.abs x in
  let sign := if x <? 0 then "-" else "" in
  let body :=
    if (width =? 2)%nat && (u <? 10) then
      String "0" (String (utod u) "")
    else if (width =? 2)%nat && (u <? 100) then
      String (utod (u / 10)) (String (utod (u mod 10)) "")
    else if (width =? 4)%nat && (u <? 1000) then
      String "0" (String (utod (u / 100))
        (String (utod (u / 10 mod 10)) (String (utod (u mod 10)) "")))
    else if (width =? 4)%nat && (u <? 10000) then
      String (utod (u / 1000)) (String (utod (u / 100 mod 10))
        (String (utod (u / 10 mod 10)) (String (utod (u mod 10)) "")))
    else
      let digits := utoa (Z.to_nat (Z.log2 u)) u "" in
      zeros (width - len digits) digits in
  sign +:+ body.

(** [t.Format(FileNameTimeFormat)]. *)
Definition time_Format_date (t : Time) : string :=
  let '(year, month, day) := time_civil t in
  appendInt year 4 +:+ "-" +:+ appendInt month 2 +:+ "-" +:+ appendInt day 2.

(** *** Parsing with the layout [FileNameTimeFormat] *)

Definition is_digit (c : ascii) : bool :=
  (48 <=? nat_of_ascii c)%nat && (nat_of_ascii c <=? 57)%nat.

Definition digit_val (c : ascii) : Z := Z.of_nat (nat_of_ascii c) - 48.

(** [isDigit(s, i)]. *)
Definition isDigit (s : string) (i : nat) : bool :=
  match String.get i s with
  | Some c => is_digit c
  | None => false
  end.

(** [getnum(s, fixed)]: a one- or two-digit number; exactly two digits
    when [fixed]. *)
Definition getnum (s : string) (fixed : bool) : option (Z * string) :=
  match s with
  | String c0 rest =>
      if is_digit c0 then
        match rest with
        | String c1 rest' =>
            if is_digit c1 then Some (digit_val c0 * 10 + digit_val c1, rest')
            else if fixed then None else Some (digit_val c0, rest)
        | EmptyString => if fixed then None else Some (digit_val c0, rest)
        end
      else None
  | EmptyString => None
  end.

(** [leadingInt(s)]: the leading decimal digits of [s] and the rest. *)
Fixpoint leadingInt (s : string) (acc : Z) : Z * string :=
  match s with
  | String c rest =>
      if is_digit c then leadingInt rest (acc * 10 + digit_val c)
      else (acc, s)
  | EmptyString => (acc, s)
  end.

(** [atoi(s)] for a text whose first character is a digit (no sign). *)
Definition atoi (s : string) : option Z :=
  let '(q, rem) := leadingInt s 0 in
  if (0 <? len rem)%nat then None else Some q.

(** [skip(value, prefix)] for the one-character prefix "-". *)
Definition skip_dash (value : string) : option string :=
  match value with
  | String c rest => if Ascii.eqb c "-" then Some rest else None
  | EmptyString => None
  end.

Definition errBad : error := ErrNew "bad value for field".

(** [time.Parse(FileNameTimeFormat, value)]: the chunks of the layout are
    a four-digit year, "-", a two-digit month, "-", a two-digit day; then
    no text may remain, and the day must exist in that month. *)
Definition time_Parse_date (value : string) : error + Time :=
  if (len value <? 4)%nat || negb (isDigit value 0) then inl errBad else
  match atoi (slice_to value 4) with
  | None => inl errBad
  | Some year =>
  match skip_dash (slice_from value 4) with
  | None => inl errBad
  | Some value =>
  match getnum value true with
  | None => inl errBad
  | Some (month, value) =>
  if (month <=? 0) || (12 <? month) then inl (ErrNew "month out of range") else
  match skip_dash value with
  | None => inl errBad
  | Some value =>
  match getnum value true with
  | None => inl errBad
  | Some (day, value) =>
  if (0 <? len value)%nat then inl (ErrNew "extra text") else
  if (day <? 1) || (daysIn month year <? day)
  then inl (ErrNew "day out of range")
  else inr (time_Date year month day 0 0 0 0 0)
  end end end end end.

(** ** File naming (section 4.1 of the design) *)

(** The name part of [newFileName]: [t.Format(FileNameTimeFormat) +
    FileNameExt]. *)
Definition fileNameFor (t : Time) : string :=
  time_Format_date t +:+ FileNameExt.

(** [timeFromName(filename, ext)]. *)
Definition timeFromName (filename ext : string) : error + Time :=
  if negb (strings_HasSuffix filename ext)
  then inl (ErrNew "mismatched extension")
  else time_Parse_date (trim_suffix_len filename ext).

(** ** Paths

    [filepath.Clean] and [filepath.Join] for "/"-separated paths. *)

Fixpoint splitPath (s : string) (cur : string) : list string :=
  match s with
  | EmptyString => [cur]
  | String c s' =>
      if Ascii.eqb c "/" then cur :: splitPath s' ""
      else splitPath s' (cur +:+ String c "")
  end.

Fixpoint joinPath (comps : list string) : string :=
  match comps with
  | [] => ""
  | [c] => c
  | c :: rest => c +:+ "/" +:+ joinPath rest
  end.

(** One element of the path against the elements kept so far (innermost
    first). *)
Definition cleanStep (rooted : bool) (stack : list string) (comp : string)
  : list string :=
  if String.eqb comp "" || String.eqb comp "." then stack
  else if String.eqb comp ".." then
    match stack with
    | top :: rest => if String.eqb top ".." then comp :: stack else rest
    | [] => if rooted then [] else [comp]
    end
  else comp :: stack.

Definition isRooted (path : string) : bool :=
  match path with
  | String c _ => Ascii.eqb c "/"
  | EmptyString => false
  end.

Definition cleanComponents (path : string) : list string :=
  rev (fold_left (cleanStep (isRooted path)) (splitPath path "") []).

Definition filepath_Clean (path : string) : string :=
  let body := joinPath (cleanComponents path) in
  if isRooted path then "/" +:+ body
  else if String.eqb body "" then "." else body.

(** [filepath.Join(a, b)]: empty elements are ignored, the rest is joined
    by the separator and cleaned. *)
Definition filepath_Join (a b : string) : string :=
  if String.eqb a "" then (if String.eqb b "" then "" else filepath_Clean b)
  else if String.eqb b "" then filepath_Clean a
  else filepath_Clean (a +:+ "/" +:+ b).

(** ** Directory entries *)

(** [os.FileInfo], as far as the writer looks at it. *)
Record FileInfo : Type := mkFileInfo {
  fi_Name : string;
  fi_IsDir : bool;
  fi_Mode : N
}.

(** [logInfo]: a directory entry with the time decoded from its name. *)
Record logInfo : Type := mkLogInfo {
  timestamp : Time;
  info : FileInfo
}.

Definition Name (f : logInfo) : string := fi_Name (info f).

(** [byFormatTime.Less] on two elements. *)
Definition byFormatTime_Less (a b : logInfo) : bool :=
  time_Before (timestamp a) (timestamp b).

(** [sort.Sort(sort.Reverse(byFormatTime(logFiles)))].  The library sorts
    short slices by insertion: an element moves towards the front while the
    element before it is less in the reversed order's sense, that is,
    strictly older.  The properties of the mill below are stated for any
    list that is sorted newest first, not only for the output of this
    function. *)
Fixpoint insertNewestFirst (x : logInfo) (l : list logInfo) : list logInfo :=
  match l with
  | [] => [x]
  | y :: l' =>
      if byFormatTime_Less y x then x :: l
      else y :: insertNewestFirst x l'
  end.

Definition sortNewestFirst (l : list logInfo) : list logInfo :=
  fold_left (fun acc x => insertNewestFirst x acc) l [].

(** The loop of [oldLogFiles] over the entries of the directory. *)
Fixpoint decodeEntries (files : list FileInfo) : list logInfo :=
  match files with
  | [] => []
  | f :: rest =>
      if fi_IsDir f then decodeEntries rest
      else
        match timeFromName (fi_Name f) FileNameExt with
        | inr t => mkLogInfo t f :: decodeEntries rest
        | inl _ =>
            match timeFromName (fi_Name f) (FileNameExt +:+ CompressSuffix) with
            | inr t => mkLogInfo t f :: decodeEntries rest
            | inl _ => decodeEntries rest
            end
        end
  end.

(** ** The selection part of [millRunOnce] *)

(** The key under which a file is counted: its name without the
    compression suffix. *)
Definition logicalName (f : logInfo) : string :=
  let fn := Name f in
  if strings_HasSuffix fn CompressSuffix
  then trim_suffix_len fn CompressSuffix
  else fn.

(** The loop over [files] of the deletion step, with its three variables
    [preserved], [remove] and [remaining]. *)
Fixpoint millPartition (MaxBackups : Z) (files : list logInfo)
    (preserved : gmap string bool) (remove remaining : list logInfo)
  : list logInfo * list logInfo :=
  match files with
  | [] => (remove, remaining)
  | f :: rest =>
      let preserved := <[logicalName f := true]> preserved in
      if MaxBackups <? Z.of_nat (size preserved)
      then millPartition MaxBackups rest preserved (remove ++ [f]) remaining
      else millPartition MaxBackups rest preserved remove (remaining ++ [f])
  end.

(** The deletion step: the files marked for removal and the new value of
    [files]. *)
Definition millSelectRemove (MaxBackups : Z) (files : list logInfo)
  : list logInfo * list logInfo :=
  if (0 <? MaxBackups) && (MaxBackups <? Z.of_nat (length files))
  then millPartition MaxBackups files ∅ [] []
  else ([], files).

Definition uncompressed (f : logInfo) : bool :=
  negb (strings_HasSuffix (Name f) CompressSuffix).

(** Outcome of a computation that can panic. *)
Inductive Res (A : Type) : Type :=
  | Ret (a : A)
  | Panic (msg : string).
Arguments Ret {A} a.
Arguments Panic {A} msg.

(** The compression step: [files[1:]] panics on an empty slice. *)
Definition millSelectCompress (Compress : bool) (files : list logInfo)
  : Res (list logInfo) :=
  if Compress then
    match files with
    | [] => Panic "slice bounds out of range [1:0]"
    | _ :: temp => Ret (filter (fun f => uncompressed f = true) temp)
    end
  else Ret [].

(** Sortedness as [oldLogFiles] establishes it: no file is strictly older
    than the one after it. *)
Fixpoint newestFirst (files : list logInfo) : bool :=
  match files with
  | f :: rest =>
      match rest with
      | g :: _ => negb (byFormatTime_Less f g) && newestFirst rest
      | [] => true
      end
  | [] => true
  end.

(** An entry as [oldLogFiles] produces it: not a directory, and its time
    is the one decoded from its name with one of the two suffixes. *)
Definition isDecoded (f : logInfo) : bool :=
  negb (fi_IsDir (info f)) &&
  match timeFromName (Name f) FileNameExt with
  | inr t => Time_eqb t (timestamp f)
  | inl _ =>
      match timeFromName (Name f) (FileNameExt +:+ CompressSuffix) with
      | inr t => Time_eqb t (timestamp f)
      | inl _ => false
      end
  end.

(** ** The operating system

    The calls the writer makes, as functions on a state of the world [W].
    A failure of a call is a value of the result; which calls fail, and
    when, is up to the instance.  [chown] is the package's own helper,
    defined in a platform file; it is taken as part of the interface. *)

Definition File : Type := nat.

Record OpenFlags : Type := mkFlags {
  O_CREATE : bool;
  O_WRONLY : bool;
  O_TRUNC : bool;
  O_APPEND : bool
}.

Definition O_RDONLY : OpenFlags := mkFlags false false false false.

(** The permission bits 0766 and 0644. *)
Definition perm_0766 : N := 502.
Definition perm_0644 : N := 420.

Class OS (W : Type) : Type := {
  osStat : string -> W -> (error + FileInfo) * W;
  os_MkdirAll : string -> N -> W -> option error * W;
  ioutil_ReadDir : string -> W -> (error + list FileInfo) * W;
  os_OpenFile : string -> OpenFlags -> N -> W -> (error + File) * W;
  os_Remove : string -> W -> option error * W;
  File_Write : File -> list Byte.byte -> W -> (Z * option error) * W;
  File_Close : File -> W -> option error * W;
  time_Now : W -> Time * W;
  (* io.Copy(gzip.NewWriter(dst), src) and the Close of the gzip writer *)
  gzip_Copy : File -> File -> W -> option error * W;
  gzip_Close : File -> W -> option error * W;
  chown : string -> FileInfo -> W -> option error * W
}.

(** ** The writer *)

(** [millCh] is [None] for the nil channel, and otherwise the number of
    signals waiting in the channel, whose capacity is one.  [startMill]
    tells whether the [sync.Once] has run, that is, whether the channel
    was made and the [millRun] goroutine started.  The mutex [mu] has no
    counterpart: the methods are run one at a time. *)
Record Logger : Type := mkLogger {
  Directory : string;
  MaxDays : Z;
  MaxBackups : Z;
  LocalTime : bool;
  Compress : bool;
  currentFile : option File;
  millCh : option nat;
  startMill : bool
}.

Definition set_Directory (d : string) (l : Logger) : Logger :=
  mkLogger d (MaxDays l) (MaxBackups l) (LocalTime l) (Compress l)
    (currentFile l) (millCh l) (startMill l).

Definition set_currentFile (f : option File) (l : Logger) : Logger :=
  mkLogger (Directory l) (MaxDays l) (MaxBackups l) (LocalTime l) (Compress l)
    f (millCh l) (startMill l).

Definition set_millCh (c : option nat) (l : Logger) : Logger :=
  mkLogger (Directory l) (MaxDays l) (MaxBackups l) (LocalTime l) (Compress l)
    (currentFile l) c (startMill l).

Definition set_startMill (b : bool) (l : Logger) : Logger :=
  mkLogger (Directory l) (MaxDays l) (MaxBackups l) (LocalTime l) (Compress l)
    (currentFile l) (millCh l) b.

(** *** The monad of the methods: state of the writer and of the world,
    with panics *)

Definition M (W A : Type) : Type := Logger * W -> Res A * (Logger * W).

Definition retM {W A} (a : A) : M W A := fun s => (Ret a, s).

Definition bindM {W A B} (m : M W A) (k : A -> M W B) : M W B :=
  fun s =>
    match m s with
    | (Ret a, s') => k a s'
    | (Panic msg, s') => (Panic msg, s')
    end.

Definition liftRes {W A} (r : Res A) : M W A := fun s => (r, s).

(** A call of the operating system. *)
Definition call {W A} (op : W -> A * W) : M W A :=
  fun s => let '(a, w) := op (snd s) in (Ret a, (fst s, w)).

Definition getL {W} : M W Logger := fun s => (Ret (fst s), s).

Definition modifyL {W} (f : Logger -> Logger) : M W unit :=
  fun s => (Ret tt, (f (fst s), snd s)).

Notation "'let*' x ':=' m 'in' k" := (bindM m (fun x => k))
  (at level 10, x pattern, m at level 100, k at level 200).

Notation "m '>>' k" := (bindM m (fun _ => k))
  (at level 100, k at level 200, right associativity).

Section Methods.
Context {W : Type} {os : OS W}.

(** [(l *Logger) close()]. *)
Definition close : M W (option error) :=
  let* l := getL in
  match currentFile l with
  | None => retM None
  | Some f =>
      let* err := call (File_Close f) in
      modifyL (set_currentFile None) >>
      retM err
  end.

(** [(l *Logger) Close()]: [close] under the lock. *)
Definition Close : M W (option error) := close.

(** [(l *Logger) dir()]. *)
Definition dir : M W string :=
  let* l := getL in
  let* r := call (osStat (Directory l)) in
  match r with
  | inl err =>
      if os_IsNotExist err then
        let* err2 := call (os_MkdirAll (Directory l) perm_0766) in
        match err2 with
        | Some _ => modifyL (set_Directory DefaultLogDir)
        | None => retM tt
        end
      else retM tt
  | inr fi =>
      if negb (fi_IsDir fi) then modifyL (set_Directory DefaultLogDir)
      else retM tt
  end >>
  let* l := getL in
  retM (Directory l).

(** [(l *Logger) mill()]: the first call makes the channel and starts
    the goroutine; every call then tries to send without blocking. *)
Definition mill : M W unit :=
  let* l := getL in
  (if startMill l then retM tt
   else modifyL (fun l => set_startMill true (set_millCh (Some 0%nat) l))) >>
  let* l := getL in
  match millCh l with
  | Some O => modifyL (set_millCh (Some 1%nat))
  | _ => retM tt
  end.

(** [(l *Logger) oldLogFiles()]. *)
Definition oldLogFiles : M W (error + list logInfo) :=
  let* d := dir in
  let* r := call (ioutil_ReadDir d) in
  match r with
  | inl err =>
      retM (inl (Wrapf "can't read log currentFile directory: " err))
  | inr files => retM (inr (sortNewestFirst (decodeEntries files)))
  end.

(** [compressLogFile(src, dst)]; the deferred calls run, last first,
    where the function returns. *)
Definition compressCopy (f gzf : File) (src : string)
  : M W (option error) :=
  let* e := call (gzip_Copy gzf f) in
  match e with Some err => retM (Some err) | None =>
  let* e := call (gzip_Close gzf) in
  match e with Some err => retM (Some err) | None =>
  let* e := call (File_Close gzf) in
  match e with Some err => retM (Some err) | None =>
  let* e := call (File_Close f) in
  match e with Some err => retM (Some err) | None =>
  let* e := call (os_Remove src) in
  match e with Some err => retM (Some err) | None =>
  retM None
  end end end end end.

Definition compressLogFile (src dst : string) : M W (option error) :=
  let* r := call (os_OpenFile src O_RDONLY 0) in
  match r with
  | inl err => retM (Some (Wrapf "failed to open log file: " err))
  | inr f =>
      let* res :=
        let* r := call (osStat src) in
        match r with
        | inl err => retM (Some (Wrapf "failed to stat log file: " err))
        | inr fi =>
            let* e := call (chown dst fi) in
            match e with
            | Some err =>
                retM (Some (Wrapf "failed to chown compressed log file: " err))
            | None =>
                let* r :=
                  call (os_OpenFile dst (mkFlags true true true false)
                          (fi_Mode fi)) in
                match r with
                | inl err =>
                    retM (Some
                      (Wrapf "failed to open compressed log file: " err))
                | inr gzf =>
                    let* res := compressCopy f gzf src in
                    let* res :=
                      match res with
                      | Some err =>
                          call (os_Remove dst) >>
                          retM (Some
                            (Wrapf "failed to compress log file: " err))
                      | None => retM None
                      end in
                    call (File_Close gzf) >>
                    retM res
                end
            end
        end in
      call (File_Close f) >>
      retM res
  end.

(** The two loops that end [millRunOnce]: [err] keeps the first error. *)
Definition keepFirst (err e : option error) : option error :=
  match err, e with
  | None, Some _ => e
  | _, _ => err
  end.

Fixpoint removeLoop (remove : list logInfo) (err : option error)
  : M W (option error) :=
  match remove with
  | [] => retM err
  | f :: rest =>
      let* d := dir in
      let* errRemove := call (os_Remove (filepath_Join d (Name f))) in
      removeLoop rest (keepFirst err errRemove)
  end.

Fixpoint compressLoop (compress : list logInfo) (err : option error)
  : M W (option error) :=
  match compress with
  | [] => retM err
  | f :: rest =>
      let* d := dir in
      let fn := filepath_Join d (Name f) in
      let* errCompress := compressLogFile fn (fn +:+ CompressSuffix) in
      compressLoop rest (keepFirst err errCompress)
  end.

Definition millExecute (remove compress : list logInfo)
  : M W (option error) :=
  let* err := removeLoop remove None in
  compressLoop compress err.

(** [(l *Logger) millRunOnce()]. *)
Definition millRunOnce : M W (option error) :=
  let* l := getL in
  if (MaxBackups l =? 0) && negb (Compress l) then retM None else
  let* r := oldLogFiles in
  match r with
  | inl err => retM (Some err)
  | inr files =>
      let* l := getL in
      let '(remove, files) := millSelectRemove (MaxBackups l) files in
      let* compress := liftRes (millSelectCompress (Compress l) files) in
      millExecute remove compress
  end.

(** One turn of the loop of [millRun]: take a signal from the channel,
    if there is one, and run a pass, dropping its error.  A panic of the
    pass is not recovered. *)
Definition millRunStep : M W bool :=
  let* l := getL in
  match millCh l with
  | Some (S n) =>
      modifyL (set_millCh (Some n)) >>
      millRunOnce >>
      retM true
  | _ => retM false
  end.

(** The time the writer works with: [time.Now()], in UTC unless
    [LocalTime]. *)
Definition now : M W Time :=
  let* l := getL in
  let* t := call time_Now in
  retM (if negb (LocalTime l) then time_UTC t else t).

(** [(l *Logger) newFileName()]. *)
Definition newFileName : M W string :=
  let* t := now in
  let name := fileNameFor t in
  let* d := dir in
  retM (filepath_Join d name).

(** [(l *Logger) openNew()]. *)
Definition openNew : M W (option error) :=
  let* name := newFileName in
  let* r := call (os_OpenFile name (mkFlags true true true false) perm_0644) in
  match r with
  | inl err => retM (Some (Wrapf "can't open new logfile: " err))
  | inr f =>
      modifyL (set_currentFile (Some f)) >>
      mill >>
      retM None
  end.

(** [(l *Logger) openExistingOrNew()]. *)
Definition openExistingOrNew : M W (option error) :=
  let* r := oldLogFiles in
  match r with
  | inl err => retM (Some err)
  | inr allFiles =>
      match allFiles with
      | latest :: _ =>
          let* t := now in
          let* l := getL in
          let duration := time_Sub t (timestamp latest) in
          if duration <? Duration_mul (MaxDays l) NanosecondPerDay then
            let* d := dir in
            let* r :=
              call (os_OpenFile (d +:+ Name latest)
                      (mkFlags false true false true)
                      perm_0644) in
            match r with
            | inl err => retM (Some err)
            | inr file =>
                modifyL (set_currentFile (Some file)) >>
                retM None
            end
          else openNew
      | [] => openNew
      end
  end.

(** [(l *Logger) Write(p)].  A nil [*os.File] refuses the write with
    [os.ErrInvalid]. *)
Definition writeCurrent (p : list Byte.byte) : M W (Z * option error) :=
  let* l := getL in
  match currentFile l with
  | Some f => call (File_Write f p)
  | None => retM (0, Some (ErrNew "invalid argument"))
  end.

Definition Write (p : list Byte.byte) : M W (Z * option error) :=
  let* l := getL in
  match currentFile l with
  | None =>
      let* err := openExistingOrNew in
      match err with
      | Some e => retM (0, Some e)
      | None => writeCurrent p
      end
  | Some _ => writeCurrent p
  end.

(** Successive calls of [Write]. *)
Fixpoint writes (ps : list (list Byte.byte)) : M W (list (Z * option error)) :=
  match ps with
  | [] => retM []
  | p :: rest =>
      let* r := Write p in
      let* rs := writes rest in
      retM (r :: rs)
  end.

End Methods.

(** ** An in-memory file system

    An instance of the interface on which the methods run: a tree of
    directories and files addressed by the elements of the cleaned path
    (relative to the working directory, which is the empty path), a table
    of open files, and a clock that stands still. *)

Inductive Node : Type :=
  | NDir
  | NFile (content : list Byte.byte).

Definition Path : Type := list string.

Record MemWorld : Type := mkMemWorld {
  mw_nodes : list (Path * Node);
  mw_open : list (File * Path);
  mw_next : File;
  mw_clock : Time
}.

Definition ENOTDIR : error := EIO 20.
Definition EISDIR : error := EIO 21.
Definition ENOTEMPTY : error := EIO 39.
Definition ErrClosed : error := ErrNew "file already closed".

Fixpoint path_eqb (p q : Path) : bool :=
  match p, q with
  | [], [] => true
  | a :: p', b :: q' => String.eqb a b && path_eqb p' q'
  | _, _ => false
  end.

Definition resolve (p : string) : Path :=
  (if isRooted p then ["/"] else []) ++ cleanComponents p.

Fixpoint lookupNode (nodes : list (Path * Node)) (k : Path) : option Node :=
  match nodes with
  | [] => None
  | (k', n) :: rest => if path_eqb k' k then Some n else lookupNode rest k
  end.

(** The working directory always exists. *)
Definition nodeAt (w : MemWorld) (k : Path) : option Node :=
  match k with
  | [] => Some NDir
  | _ => lookupNode (mw_nodes w) k
  end.

Fixpoint deleteNode (nodes : list (Path * Node)) (k : Path)
  : list (Path * Node) :=
  match nodes with
  | [] => []
  | (k', n) :: rest =>
      if path_eqb k' k then deleteNode rest k else (k', n) :: deleteNode rest k
  end.

Definition putNode (w : MemWorld) (k : Path) (n : Node) : MemWorld :=
  mkMemWorld (deleteNode (mw_nodes w) k ++ [(k, n)]) (mw_open w) (mw_next w)
    (mw_clock w).

Definition dropNode (w : MemWorld) (k : Path) : MemWorld :=
  mkMemWorld (deleteNode (mw_nodes w) k) (mw_open w) (mw_next w) (mw_clock w).

Definition parentOf (k : Path) : Path := List.removelast k.
Definition baseOf (k : Path) : string := List.last k ".".

Definition childOf (dirPath : Path) (k : Path) : bool :=
  negb (path_eqb k []) && path_eqb (parentOf k) dirPath.

Definition infoOf (k : Path) (n : Node) : FileInfo :=
  match n with
  | NDir => mkFileInfo (baseOf k) true 493
  | NFile _ => mkFileInfo (baseOf k) false perm_0644
  end.

Definition mem_Stat (p : string) (w : MemWorld) : (error + FileInfo) * MemWorld :=
  let k := resolve p in
  match nodeAt w k with
  | Some n => (inr (infoOf k n), w)
  | None =>
      match nodeAt w (parentOf k) with
      | Some (NFile _) => (inl ENOTDIR, w)
      | _ => (inl ENOENT, w)
      end
  end.

(** Create the directories along [k], shortest prefix first. *)
Fixpoint mkdirAlong (done todo : Path) (w : MemWorld) : option error * MemWorld :=
  match todo with
  | [] => (None, w)
  | c :: rest =>
      let k := done ++ [c] in
      match nodeAt w k with
      | Some NDir => mkdirAlong k rest w
      | Some (NFile _) => (Some ENOTDIR, w)
      | None => mkdirAlong k rest (putNode w k NDir)
      end
  end.

Definition mem_MkdirAll (p : string) (perm : N) (w : MemWorld)
  : option error * MemWorld :=
  mkdirAlong [] (resolve p) w.

Fixpoint insertByName (x : FileInfo) (l : list FileInfo) : list FileInfo :=
  match l with
  | [] => [x]
  | y :: l' =>
      if String.leb (fi_Name x) (fi_Name y) then x :: l
      else y :: insertByName x l'
  end.

(** The entries of a directory, sorted by name as [ioutil.ReadDir] does. *)
Definition entriesOf (w : MemWorld) (k : Path) : list FileInfo :=
  fold_right insertByName []
    (map (fun kn => infoOf (fst kn) (snd kn))
       (List.filter (fun kn => childOf k (fst kn)) (mw_nodes w))).

Definition mem_ReadDir (p : string) (w : MemWorld)
  : (error + list FileInfo) * MemWorld :=
  let k := resolve p in
  match nodeAt w k with
  | Some NDir => (inr (entriesOf w k), w)
  | Some (NFile _) => (inl ENOTDIR, w)
  | None =>
      match nodeAt w (parentOf k) with
      | Some (NFile _) => (inl ENOTDIR, w)
      | _ => (inl ENOENT, w)
      end
  end.

Definition openAt (w : MemWorld) (k : Path) : (error + File) * MemWorld :=
  (inr (mw_next w),
   mkMemWorld (mw_nodes w) ((mw_next w, k) :: mw_open w) (S (mw_next w))
     (mw_clock w)).

Definition mem_OpenFile (p : string) (flags : OpenFlags) (perm : N)
    (w : MemWorld) : (error + File) * MemWorld :=
  let k := resolve p in
  match nodeAt w k with
  | Some NDir => if O_WRONLY flags then (inl EISDIR, w) else openAt w k
  | Some (NFile c) =>
      openAt (if O_TRUNC flags then putNode w k (NFile []) else w) k
  | None =>
      if O_CREATE flags then
        match nodeAt w (parentOf k) with
        | Some NDir => openAt (putNode w k (NFile [])) k
        | Some (NFile _) => (inl ENOTDIR, w)
        | None => (inl ENOENT, w)
        end
      else
        match nodeAt w (parentOf k) with
        | Some (NFile _) => (inl ENOTDIR, w)
        | _ => (inl ENOENT, w)
        end
  end.

Definition hasChildren (w : MemWorld) (k : Path) : bool :=
  existsb (fun kn => childOf k (fst kn)) (mw_nodes w).

Definition mem_Remove (p : string) (w : MemWorld) : option error * MemWorld :=
  let k := resolve p in
  match k with
  | [] => (Some (EIO 22), w)
  | _ =>
      match nodeAt w k with
      | None => (Some ENOENT, w)
      | Some (NFile _) => (None, dropNode w k)
      | Some NDir =>
          if hasChildren w k then (Some ENOTEMPTY, w) else (None, dropNode w k)
      end
  end.

Fixpoint lookupOpen (tbl : list (File * Path)) (fd : File) : option Path :=
  match tbl with
  | [] => None
  | (fd', k) :: rest => if Nat.eqb fd' fd then Some k else lookupOpen rest fd
  end.

(** Writing appends to the file the descriptor was opened on; a file that
    was removed in the meantime takes the bytes with it. *)
Definition mem_Write (fd : File) (p : list Byte.byte) (w : MemWorld)
  : (Z * option error) * MemWorld :=
  match lookupOpen (mw_open w) fd with
  | None => ((0, Some ErrClosed), w)
  | Some k =>
      match nodeAt w k with
      | Some (NFile c) => ((Z.of_nat (length p), None), putNode w k (NFile (c ++ p)))
      | _ => ((Z.of_nat (length p), None), w)
      end
  end.

Definition mem_Close (fd : File) (w : MemWorld) : option error * MemWorld :=
  match lookupOpen (mw_open w) fd with
  | None => (Some ErrClosed, w)
  | Some _ =>
      (None,
       mkMemWorld (mw_nodes w)
         (List.filter (fun e => negb (Nat.eqb (fst e) fd)) (mw_open w))
         (mw_next w) (mw_clock w))
  end.

Definition contentOf (w : MemWorld) (fd : File) : option (list Byte.byte) :=
  match lookupOpen (mw_open w) fd with
  | Some k =>
      match nodeAt w k with
      | Some (NFile c) => Some c
      | _ => None
      end
  | None => None
  end.

(** The compressed form of a content is the content behind the two magic
    bytes of gzip. *)
Definition mem_gzip_Copy (dst src : File) (w : MemWorld)
  : option error * MemWorld :=
  match contentOf w src with
  | None => (Some ErrClosed, w)
  | Some c =>
      let '(r, w') := mem_Write dst (Byte.x1f :: Byte.x8b :: c) w in
      (snd r, w')
  end.

#[global] Instance MemOS : OS MemWorld := {|
  osStat := mem_Stat;
  os_MkdirAll := mem_MkdirAll;
  ioutil_ReadDir := mem_ReadDir;
  os_OpenFile := mem_OpenFile;
  os_Remove := mem_Remove;
  File_Write := mem_Write;
  File_Close := mem_Close;
  time_Now := fun w => (mw_clock w, w);
  gzip_Copy := mem_gzip_Copy;
  gzip_Close := fun _ w => (None, w);
  chown := fun _ _ w => (None, w)
|}.

(** A writer as the package's constructor leaves it, and a world with the
    given tree and clock. *)
Definition newLogger (directory : string) (maxDays maxBackups : Z)
    (localTime compress : bool) : Logger :=
  mkLogger directory maxDays maxBackups localTime compress None None false.

Definition worldOf (nodes : list (Path * Node)) (clock : Time) : MemWorld :=
  mkMemWorld nodes [] 3%nat clock.

(** ** Vocabulary of the properties *)

Definition yearLength (y : Z) : Z := if isLeap y then 366 else 365.

(** A calendar date: a month of the year and a day that exists in it. *)
Definition valid_date (y m d : Z) : Prop :=
  1 <= m <= 12 /\ 1 <= d <= daysIn m y.

(** The day within the year of a date. *)
Definition ydayOf (y m d : Z) : Z :=
  daysBefore (m - 1) + (if isLeap y && (3 <=? m) then 1 else 0) + (d - 1).

Definition digits4 (u : Z) : string :=
  String (utod (u / 1000)) (String (utod (u / 100 mod 10))
    (String (utod (u / 10 mod 10)) (String (utod (u mod 10)) ""))).

Definition digits2 (u : Z) : string :=
  String (utod (u / 10)) (String (utod (u mod 10)) "").

(** The text of a date: four digits, a dash, two digits, a dash, two
    digits. *)
Definition dateText (c1 c2 c3 c4 c5 c6 c7 c8 : ascii) : string :=
  String c1 (String c2 (String c3 (String c4 (String "-"
    (String c5 (String c6 (String "-" (String c7 (String c8 ""))))))))).

(** The number of logical files among entries: [X.log] and [X.log.gz]
    count once. *)
Definition logicalNames (fs : list logInfo) : gset string :=
  list_to_set (logicalName <$> fs).

Definition distinctLogical (fs : list logInfo) : nat :=
  size (logicalNames fs).

(** A directory listing to try the definitions on: four logs, one of them
    in both forms, a foreign file and a subdirectory. *)
Definition exampleListing : list FileInfo :=
  [ mkFileInfo "2021-08-29.log.gz" false perm_0644;
    mkFileInfo "2021-08-30.log" false perm_0644;
    mkFileInfo "2021-08-30.log.gz" false perm_0644;
    mkFileInfo "2021-08-31.log" false perm_0644;
    mkFileInfo "2021-09-01.log" false perm_0644;
    mkFileInfo "archive" true 493;
    mkFileInfo "notes.txt" false perm_0644 ].

Definition exampleFiles : list logInfo :=
  sortNewestFirst (decodeEntries exampleListing).

(** ** The error policy of a mill pass, in the words of the design

    The actions of a pass are the deletions followed by the compressions.
    Every action is run, in order, whatever the earlier ones returned;
    the pass returns the first error among their results. *)

Inductive Action : Type :=
  | ActDelete (f : logInfo)
  | ActCompress (f : logInfo).

Section MillActions.
Context {W : Type} {os : OS W}.

Definition runAction (a : Action) : M W (option error) :=
  match a with
  | ActDelete f =>
      let* d := dir in
      call (os_Remove (filepath_Join d (Name f)))
  | ActCompress f =>
      let* d := dir in
      let fn := filepath_Join d (Name f) in
      compressLogFile fn (fn +:+ CompressSuffix)
  end.

Fixpoint runAll (acts : list Action) : M W (list (option error)) :=
  match acts with
  | [] => retM []
  | a :: rest =>
      let* r := runAction a in
      let* rs := runAll rest in
      retM (r :: rs)
  end.

End MillActions.

Fixpoint firstError (rs : list (option error)) : option error :=
  match rs with
  | [] => None
  | Some e :: _ => Some e
  | None :: rest => firstError rest
  end.

(** A computation that returns from every state: it does not panic. *)
Definition returns {W A} (m : M W A) : Prop :=
  forall s, exists a s', m s = (Ret a, s').

(** What an operation may do to the configuration of the writer: nothing,
    except for replacing [Directory] by the default directory. *)
Definition sameConfig (l l' : Logger) : Prop :=
  MaxDays l' = MaxDays l
  /\ MaxBackups l' = MaxBackups l
  /\ LocalTime l' = LocalTime l
  /\ Compress l' = Compress l
  /\ (Directory l' = Directory l \/ Directory l' = DefaultLogDir).

Definition keepsConfig {W A} (m : M W A) : Prop :=
  forall s, sameConfig (fst s) (fst (snd (m s))).

(** Writing a sequence of records to one open file, by calls of the
    operating system alone. *)
Section FileWrites.
Context {W : Type} {os : OS W}.

Fixpoint fileWrites (f : File) (ps : list (list Byte.byte)) (w : W)
  : list (Z * option error) * W :=
  match ps with
  | [] => ([], w)
  | p :: rest =>
      let '(r, w1) := File_Write f p w in
      let '(rs, w2) := fileWrites f rest w1 in
      (r :: rs, w2)
  end.

End FileWrites.

(** ** Scenarios on the in-memory file system *)

Definition hello : list Byte.byte := String.list_byte_of_string "hello".

(** Noon UTC on the first of September 2021. *)
Definition noon : Time := time_Date 2021 9 1 12 0 0 0 0.

(** A directory "logs" holding today's log. *)
Definition logsWorld : MemWorld :=
  worldOf [(["logs"], NDir); (["logs"; "2021-09-01.log"], NFile hello)] noon.

(** The configured path is a regular file, and there is no "./Logs/". *)
Definition cfgWorld : MemWorld :=
  worldOf [(["app.cfg"], NFile hello)] noon.

(** The log directory exists and holds no log file. *)
Definition emptyLogsWorld : MemWorld :=
  worldOf [(["Logs"], NDir); (["Logs"; "notes.txt"], NFile hello)] noon.

(** Two in the morning of the second of September 2021 in a zone two
    hours east of UTC, where it is still the first of September in UTC. *)
Definition earlyEast : Time := time_Date 2021 9 2 1 0 0 0 7200.

(** A writer with today's log open on descriptor 3. *)
Definition openWorld : MemWorld :=
  mkMemWorld [(["logs"], NDir); (["logs"; "2021-09-01.log"], NFile [])]
    [(3%nat, ["logs"; "2021-09-01.log"])] 4%nat noon.

Definition openLogger : Logger :=
  mkLogger "logs/" 1 0 false false (Some 3%nat) None false.

(** ** Further vocabulary: instants and days *)

(** The instant at which the UTC day of the calendar date of [t] begins:
    what the name of the file made at [t] decodes to. *)
Definition midnightOfDate (t : Time) : Time :=
  let '(year, month, day) := time_civil t in
  time_Date year month day 0 0 0 0 0.

Definition time_Year (t : Time) : Z := fst (fst (time_civil t)).

(** The number of whole UTC days from the epoch to an instant. *)
Definition dayNumber (t : Time) : Z := abs_ns t / NanosecondPerDay.

(** ** The sort interface of [byFormatTime] *)

Definition byFormatTime_Len (b : list logInfo) : nat := length b.

(** [b.Less(i, j)]; an index out of range panics. *)
Definition byFormatTime_LessAt (b : list logInfo) (i j : nat) : Res bool :=
  match b !! i, b !! j with
  | Some x, Some y => Ret (byFormatTime_Less x y)
  | _, _ => Panic "index out of range"
  end.

(** [b.Swap(i, j)]: [b[i], b[j] = b[j], b[i]]. *)
Definition byFormatTime_Swap (b : list logInfo) (i j : nat)
  : Res (list logInfo) :=
  match b !! i, b !! j with
  | Some x, Some y => Ret (<[j := x]> (<[i := y]> b))
  | _, _ => Panic "index out of range"
  end.

(** An entry of a scan: the log of the first of September 2021. *)
Definition exampleEntry : logInfo :=
  mkLogInfo (time_Date 2021 9 1 0 0 0 0 0)
    (mkFileInfo "2021-09-01.log" false perm_0644).

Definition exampleEntryGz : logInfo :=
  mkLogInfo (time_Date 2021 9 1 0 0 0 0 0)
    (mkFileInfo "2021-09-01.log.gz" false perm_0644).

(** ** Further vocabulary: what a method leaves alone *)

(** A relation between the writer before and after that a computation
    maintains from every state, panic or not. *)
Definition preservesL {W A} (R : Logger -> Logger -> Prop) (m : M W A)
  : Prop :=
  forall s, R (fst s) (fst (snd (m s))).

Definition sameHandle (l l' : Logger) : Prop :=
  currentFile l' = currentFile l.

Definition sameMill (l l' : Logger) : Prop :=
  millCh l' = millCh l /\ startMill l' = startMill l.

(** The states of the channel of the mill that the code can reach: no
    channel before the first call of [mill]; afterwards a channel holding
    at most the one signal it has room for. *)
Definition millWf (l : Logger) : bool :=
  match millCh l with
  | None => negb (startMill l)
  | Some n => startMill l && (n <=? 1)%nat
  end.

Definition keepsMillWf (l l' : Logger) : Prop :=
  millWf l = true -> millWf l' = true.



(** ** Recording the calls of the operating system

    Any instance of the interface can be run with a record of the calls
    that were made, in order, each with its arguments and with whether it
    succeeded.  Properties of the record hold for every behaviour of the
    operating system underneath. *)

Inductive Event : Type :=
  | EvStat (p : string) (ok : bool)
  | EvMkdirAll (p : string) (ok : bool)
  | EvReadDir (p : string) (ok : bool)
  | EvOpenFile (p : string) (flags : OpenFlags) (r : option File)
  | EvRemove (p : string) (ok : bool)
  | EvWrite (f : File) (ok : bool)
  | EvClose (f : File) (ok : bool)
  | EvNow
  | EvGzipCopy (dst src : File) (ok : bool)
  | EvGzipClose (f : File) (ok : bool)
  | EvChown (p : string) (ok : bool).

Definition isNil (e : option error) : bool :=
  match e with
  | None => true
  | Some _ => false
  end.

Definition isOk {A} (r : error + A) : bool :=
  match r with
  | inr _ => true
  | inl _ => false
  end.

Definition opened (r : error + File) : option File :=
  match r with
  | inr f => Some f
  | inl _ => None
  end.

(** Run a call on the world and add an event, made from the result, to
    the record. *)
Definition recorded {W A} (op : W -> A * W) (ev : A -> Event)
    (wt : W * list Event) : A * (W * list Event) :=
  let '(a, w') := op (fst wt) in
  (a, (w', snd wt ++ [ev a])).

Definition recordingOS {W} (os : OS W) : OS (W * list Event) := {|
  osStat p := recorded (osStat p) (fun r => EvStat p (isOk r));
  os_MkdirAll p perm :=
    recorded (os_MkdirAll p perm) (fun e => EvMkdirAll p (isNil e));
  ioutil_ReadDir p :=
    recorded (ioutil_ReadDir p) (fun r => EvReadDir p (isOk r));
  os_OpenFile p flags perm :=
    recorded (os_OpenFile p flags perm)
      (fun r => EvOpenFile p flags (opened r));
  os_Remove p := recorded (os_Remove p) (fun e => EvRemove p (isNil e));
  File_Write f data :=
    recorded (File_Write f data) (fun r => EvWrite f (isNil (snd r)));
  File_Close f := recorded (File_Close f) (fun e => EvClose f (isNil e));
  time_Now := recorded time_Now (fun _ => EvNow);
  gzip_Copy dst src :=
    recorded (gzip_Copy dst src) (fun e => EvGzipCopy dst src (isNil e));
  gzip_Close f := recorded (gzip_Close f) (fun e => EvGzipClose f (isNil e));
  chown p fi := recorded (chown p fi) (fun e => EvChown p (isNil e))
|}.

(** The record of a state. *)
Definition traceOf {W} (s : Logger * (W * list Event)) : list Event :=
  snd (snd s).

(** The flags [os.O_CREATE|os.O_TRUNC|os.O_WRONLY]. *)
Definition createTruncate : OpenFlags := mkFlags true true true false.

(** A computation started where [I] holds of the writer adds events that
    all satisfy [P] to the record, leaves [I] true, and returns a value
    that satisfies [Q] when it returns. *)
Definition emits {W A} (I : Logger -> Prop) (P : Event -> Prop)
    (Q : A -> Prop) (m : M (W * list Event) A) : Prop :=
  forall s, I (fst s) ->
    exists evs,
      traceOf (snd (m s)) = traceOf s ++ evs
      /\ Forall P evs
      /\ I (fst (snd (m s)))
      /\ match fst (m s) with
         | Ret a => Q a
         | Panic _ => True
         end.





(** Forgetting the record of a state, and a computation on recorded states
    that does what another does on plain ones: same result, same writer,
    same world. *)
Definition forget {W} (s : Logger * (W * list Event)) : Logger * W :=
  (fst s, fst (snd s)).

Definition mirrors {W A} (m : M W A) (m' : M (W * list Event) A) : Prop :=
  forall s, fst (m' s) = fst (m (forget s))
            /\ forget (snd (m' s)) = snd (m (forget s)).

(** The flags [os.O_APPEND|os.O_WRONLY]. *)
Definition appendOnly : OpenFlags := mkFlags false true false true.

(** The calls a [Write] may make: it examines, creates and lists a
    directory, reads the clock, opens a file to append to it or to create
    it, and writes. *)
Definition writeEvent (e : Event) : Prop :=
  match e with
  | EvStat _ _ | EvMkdirAll _ _ | EvReadDir _ _ | EvNow | EvWrite _ _ => True
  | EvOpenFile _ flags _ => flags = appendOnly \/ flags = createTruncate
  | EvRemove _ _ | EvClose _ _ | EvGzipCopy _ _ _ | EvGzipClose _ _
  | EvChown _ _ => False
  end.



(** * Properties *)

(** ** Strings *)

Lemma app_String (c : ascii) (s t : string) :
  String c s +:+ t = String c (s +:+ t).
Proof. reflexivity. Qed.

Lemma app_empty_l (t : string) : "" +:+ t = t.
Proof. reflexivity. Qed.

Lemma substring_0_app (s t : string) :
  String.substring 0 (String.length s) (s +:+ t) = s.
Proof. induction s as [|c s IH]; simpl; [by destruct t | by rewrite IH]. Qed.

Lemma substring_skip_app (s t : string) (n : nat) :
  String.substring (String.length s) n (s +:+ t) = String.substring 0 n t.
Proof. induction s as [|c s IH]; simpl; [done | apply IH]. Qed.

Lemma substring_0_all (t : string) :
  String.substring 0 (String.length t) t = t.
Proof. induction t as [|c t IH]; simpl; [done | by rewrite IH]. Qed.

Lemma string_length_app (s t : string) :
  String.length (s +:+ t) = (String.length s + String.length t)%nat.
Proof. induction s as [|c s IH]; simpl; [done | by rewrite IH]. Qed.

Lemma substring_split (s : string) (n : nat) :
  (n <= String.length s)%nat ->
  s = String.substring 0 n s +:+ String.substring n (String.length s - n) s.
Proof.
  revert n. induction s as [|c s IH]; intros [|n] Hn; simpl in *; try lia.
  - done.
  - by rewrite substring_0_all.
  - rewrite app_String. f_equal. apply IH. lia.
Qed.

Lemma HasSuffix_app (s ext : string) : strings_HasSuffix (s +:+ ext) ext = true.
Proof.
  unfold strings_HasSuffix, slice_from, len. rewrite string_length_app.
  apply andb_true_intro. split; [apply Nat.leb_le; lia |].
  replace (String.length s + String.length ext - String.length ext)%nat
    with (String.length s) by lia.
  replace (String.length s + String.length ext - String.length s)%nat
    with (String.length ext) by lia.
  rewrite substring_skip_app, substring_0_all. apply String.eqb_refl.
Qed.

Lemma trim_suffix_app (s ext : string) : trim_suffix_len (s +:+ ext) ext = s.
Proof.
  unfold trim_suffix_len, slice_to, len. rewrite string_length_app.
  replace (String.length s + String.length ext - String.length ext)%nat
    with (String.length s) by lia.
  apply substring_0_app.
Qed.

(** A name with the suffix is its trimmed part followed by the suffix. *)
Lemma HasSuffix_inv (s ext : string) :
  strings_HasSuffix s ext = true -> s = trim_suffix_len s ext +:+ ext.
Proof.
  unfold strings_HasSuffix, trim_suffix_len, slice_from, slice_to, len.
  intros [Hle Heq]%andb_prop. apply Nat.leb_le in Hle.
  apply String.eqb_eq in Heq.
  rewrite (substring_split s (String.length s - String.length ext)) at 1 by lia.
  by rewrite Heq.
Qed.

(** ** The calendar *)

Lemma year_decompose (Y : Z) :
  exists a b c e,
    Y = 400 * a + 100 * b + 4 * c + e /\ 0 <= b < 4 /\ 0 <= c < 25 /\ 0 <= e < 4.
Proof.
  exists (Y / 400), (Y mod 400 / 100), (Y mod 100 / 4), (Y mod 4).
  Z.div_mod_to_equations. lia.
Qed.

Lemma isLeap_decomposed (a b c e : Z) :
  0 <= b < 4 -> 0 <= c < 25 -> 0 <= e < 4 ->
  isLeap (400 * a + 100 * b + 4 * c + e + 1)
  = (e =? 3) && (negb (c =? 24) || (b =? 3)).
Proof.
  intros Hb Hc He. unfold isLeap.
  set (y := 400 * a + 100 * b + 4 * c + e + 1).
  assert (H4 : (y mod 4 =? 0) = (e =? 3)).
  { subst y. destruct (Z.eqb_spec e 3);
      destruct (Z.eqb_spec ((400 * a + 100 * b + 4 * c + e + 1) mod 4) 0);
      try reflexivity; exfalso; Z.div_mod_to_equations; lia. }
  assert (H100 : (y mod 100 =? 0) = (e =? 3) && (c =? 24)).
  { subst y. destruct (Z.eqb_spec e 3); destruct (Z.eqb_spec c 24);
      destruct (Z.eqb_spec ((400 * a + 100 * b + 4 * c + e + 1) mod 100) 0);
      try reflexivity; exfalso; Z.div_mod_to_equations; lia. }
  assert (H400 : (y mod 400 =? 0) = (e =? 3) && (c =? 24) && (b =? 3)).
  { subst y. destruct (Z.eqb_spec e 3); destruct (Z.eqb_spec c 24);
      destruct (Z.eqb_spec b 3);
      destruct (Z.eqb_spec ((400 * a + 100 * b + 4 * c + e + 1) mod 400) 0);
      try reflexivity; exfalso; Z.div_mod_to_equations; lia. }
  rewrite H4, H100, H400.
  by destruct (e =? 3), (c =? 24), (b =? 3).
Qed.

(** The year and the day of the year are recovered from the day count. *)
Lemma daysToYear_daysSinceEpoch (y yd : Z) :
  0 <= yd < yearLength y ->
  daysToYear (daysSinceEpoch y + yd) = (y, yd).
Proof.
  destruct (year_decompose (y - 1)) as (a & b & c & e & HY & Hb & Hc & He).
  assert (Hy : y = 400 * a + 100 * b + 4 * c + e + 1) by lia.
  unfold yearLength. rewrite Hy at 1. rewrite isLeap_decomposed by done.
  intros H.
  assert (Hd : daysSinceEpoch y = 146097 * a + 36524 * b + 1461 * c + 365 * e).
  { unfold daysSinceEpoch. rewrite HY. Z.div_mod_to_equations; lia. }
  rewrite Hd. unfold daysToYear.
  assert (Hyd : 0 <= yd <= 365 /\ (yd = 365 -> e = 3 /\ (c <> 24 \/ b = 3))).
  { destruct (Z.eqb_spec e 3); destruct (Z.eqb_spec c 24);
      destruct (Z.eqb_spec b 3); simpl in H; lia. }
  clear H. destruct Hyd as [Hyd Hfull].
  assert (H1 : (146097 * a + 36524 * b + 1461 * c + 365 * e + yd) / 146097 = a)
    by (Z.div_mod_to_equations; lia).
  rewrite H1.
  replace (146097 * a + 36524 * b + 1461 * c + 365 * e + yd - 146097 * a)
    with (36524 * b + 1461 * c + 365 * e + yd) by lia.
  set (d1 := 36524 * b + 1461 * c + 365 * e + yd).
  assert (H2 : d1 / 36524 - d1 / 36524 / 4 = b)
    by (subst d1; Z.div_mod_to_equations; lia).
  rewrite H2.
  replace (d1 - 36524 * b) with (1461 * c + 365 * e + yd) by (subst d1; lia).
  set (d2 := 1461 * c + 365 * e + yd).
  assert (H3 : d2 / 1461 = c) by (subst d2; Z.div_mod_to_equations; lia).
  rewrite H3.
  replace (d2 - 1461 * c) with (365 * e + yd) by (subst d2; lia).
  assert (H4 : (365 * e + yd) / 365 - (365 * e + yd) / 365 / 4 = e)
    by (Z.div_mod_to_equations; lia).
  rewrite H4. f_equal; lia.
Qed.

Lemma month_cases (m : Z) :
  1 <= m <= 12 ->
  m = 1 \/ m = 2 \/ m = 3 \/ m = 4 \/ m = 5 \/ m = 6 \/ m = 7 \/ m = 8
  \/ m = 9 \/ m = 10 \/ m = 11 \/ m = 12.
Proof. lia. Qed.

Ltac each_month m H :=
  destruct (month_cases m H) as
    [-> | [-> | [-> | [-> | [-> | [-> | [-> | [-> | [-> | [-> | [-> | ->]]]]]]]]]]].

Lemma ydayOf_range (y m d : Z) :
  valid_date y m d -> 0 <= ydayOf y m d < yearLength y.
Proof.
  intros [Hm Hd]. unfold ydayOf, yearLength. unfold daysIn in Hd.
  each_month m Hm; destruct (isLeap y); simpl in *; lia.
Qed.

Lemma div31_cases (x : Z) :
  0 <= x < 366 ->
  exists q, x / 31 = q /\ 31 * q <= x < 31 * q + 31
    /\ (q = 0 \/ q = 1 \/ q = 2 \/ q = 3 \/ q = 4 \/ q = 5 \/ q = 6 \/ q = 7
        \/ q = 8 \/ q = 9 \/ q = 10 \/ q = 11).
Proof.
  intros Hx. exists (x / 31). Z.div_mod_to_equations. lia.
Qed.

Ltac split_comparisons :=
  repeat match goal with
  | |- context [?a =? ?b] => destruct (Z.eqb_spec a b)
  | |- context [?a <? ?b] => destruct (Z.ltb_spec a b)
  | |- context [?a <=? ?b] => destruct (Z.leb_spec a b)
  end.

Ltac month_by_estimate :=
  match goal with
  | |- context [daysBefore (?x / 31 + 1)] =>
      let q := fresh "q" in
      let Hq := fresh "Hq" in
      let Hb := fresh "Hb" in
      let Hc := fresh "Hc" in
      destruct (div31_cases x) as (q & Hq & Hb & Hc); [lia |];
      rewrite Hq;
      destruct Hc as
        [-> | [-> | [-> | [-> | [-> | [-> | [-> | [-> | [-> | [-> | [-> | ->]]]]]]]]]]];
      simpl; split_comparisons; first [lia | f_equal; lia]
  end.

Lemma ydayToMonthDay_ydayOf (y m d : Z) :
  valid_date y m d -> ydayToMonthDay (isLeap y) (ydayOf y m d) = (m, d).
Proof.
  intros Hv. pose proof (ydayOf_range y m d Hv) as Hr.
  destruct Hv as [Hm Hd]. unfold ydayToMonthDay.
  unfold ydayOf, yearLength in *. unfold daysIn in Hd.
  each_month m Hm; destruct (isLeap y); simpl in Hd, Hr |- *;
    change (31 + 29 - 1) with 59;
    repeat match goal with
    | |- context [?a =? 59] => destruct (Z.eqb_spec a 59)
    | |- context [59 <? ?b] => destruct (Z.ltb_spec 59 b)
    end;
    first [lia | f_equal; lia | month_by_estimate].
Qed.

(** The calendar date of an instant built by [time_Date] is the date it was
    built from, whatever the time of day and the zone. *)
Lemma time_civil_Date (y m d hh mm ss ns off : Z) :
  valid_date y m d ->
  0 <= hh < 24 -> 0 <= mm < 60 -> 0 <= ss < 60 -> 0 <= ns < 1000000000 ->
  time_civil (time_Date y m d hh mm ss ns off) = (y, m, d).
Proof.
  intros Hv Hh Hmi Hs Hns. unfold time_civil, time_Date. simpl abs_ns.
  simpl zone_offset. unfold NanosecondPerDay, time_Second.
  assert (Hdays :
    (((dateToDays y m d * 86400 + hh * 3600 + mm * 60 + ss - off) * 1000000000
      + ns) + off * 1000000000) / (24 * 3600 * 1000000000)
    = dateToDays y m d) by (Z.div_mod_to_equations; lia).
  rewrite Hdays.
  replace (dateToDays y m d) with (daysSinceEpoch y + ydayOf y m d)
    by (unfold dateToDays, ydayOf; lia).
  rewrite daysToYear_daysSinceEpoch by (by apply ydayOf_range).
  by rewrite ydayToMonthDay_ydayOf.
Qed.

(** ** Formatting and parsing dates *)

Lemma digit_cases (u : Z) :
  0 <= u <= 9 ->
  u = 0 \/ u = 1 \/ u = 2 \/ u = 3 \/ u = 4 \/ u = 5 \/ u = 6 \/ u = 7
  \/ u = 8 \/ u = 9.
Proof. lia. Qed.

Lemma is_digit_utod (u : Z) : 0 <= u <= 9 -> is_digit (utod u) = true.
Proof.
  intros H.
  destruct (digit_cases u H) as
    [-> | [-> | [-> | [-> | [-> | [-> | [-> | [-> | [-> | ->]]]]]]]]];
    reflexivity.
Qed.

Lemma digit_val_utod (u : Z) : 0 <= u <= 9 -> digit_val (utod u) = u.
Proof.
  intros H.
  destruct (digit_cases u H) as
    [-> | [-> | [-> | [-> | [-> | [-> | [-> | [-> | [-> | ->]]]]]]]]];
    reflexivity.
Qed.

(** A digit character is the character of its value. *)
Lemma utod_digit_val (c : ascii) : is_digit c = true -> utod (digit_val c) = c.
Proof.
  intros H. unfold is_digit in H. apply andb_prop in H as [H1 H2].
  apply Nat.leb_le in H1, H2. unfold utod, digit_val.
  replace (48 + Z.to_nat (Z.of_nat (nat_of_ascii c) - 48))%nat
    with (nat_of_ascii c) by lia.
  apply ascii_nat_embedding.
Qed.

Lemma digit_val_range (c : ascii) : is_digit c = true -> 0 <= digit_val c <= 9.
Proof.
  intros H. unfold is_digit in H. apply andb_prop in H as [H1 H2].
  apply Nat.leb_le in H1, H2. unfold digit_val. lia.
Qed.

Lemma appendInt_4 (y : Z) : 0 <= y <= 9999 -> appendInt y 4 = digits4 y.
Proof.
  intros H. unfold appendInt, digits4.
  destruct (Z.ltb_spec y 0); [lia |]. rewrite Z.abs_eq by lia.
  rewrite app_empty_l. simpl Nat.eqb. simpl andb.
  destruct (Z.ltb_spec y 1000).
  - replace (y / 1000) with 0 by (Z.div_mod_to_equations; lia).
    replace (y / 100 mod 10) with (y / 100) by (Z.div_mod_to_equations; lia).
    reflexivity.
  - destruct (Z.ltb_spec y 10000); [reflexivity | lia].
Qed.

Lemma appendInt_2 (n : Z) : 0 <= n <= 99 -> appendInt n 2 = digits2 n.
Proof.
  intros H. unfold appendInt, digits2.
  destruct (Z.ltb_spec n 0); [lia |]. rewrite Z.abs_eq by lia.
  rewrite app_empty_l. simpl Nat.eqb. simpl andb.
  destruct (Z.ltb_spec n 10).
  - replace (n / 10) with 0 by (Z.div_mod_to_equations; lia).
    replace (n mod 10) with n by (Z.div_mod_to_equations; lia).
    reflexivity.
  - destruct (Z.ltb_spec n 100); [reflexivity | lia].
Qed.

Lemma time_Parse_date_dateText (c1 c2 c3 c4 c5 c6 c7 c8 : ascii) :
  is_digit c1 = true -> is_digit c2 = true -> is_digit c3 = true ->
  is_digit c4 = true -> is_digit c5 = true -> is_digit c6 = true ->
  is_digit c7 = true -> is_digit c8 = true ->
  let year :=
    (((0 * 10 + digit_val c1) * 10 + digit_val c2) * 10 + digit_val c3) * 10
    + digit_val c4 in
  let month := digit_val c5 * 10 + digit_val c6 in
  let day := digit_val c7 * 10 + digit_val c8 in
  time_Parse_date (dateText c1 c2 c3 c4 c5 c6 c7 c8) =
    if (month <=? 0) || (12 <? month) then inl (ErrNew "month out of range")
    else if (day <? 1) || (daysIn month year <? day)
         then inl (ErrNew "day out of range")
         else inr (time_Date year month day 0 0 0 0 0).
Proof.
  intros H1 H2 H3 H4 H5 H6 H7 H8. unfold dateText, time_Parse_date.
  unfold isDigit, atoi, slice_to, slice_from, len.
  cbn -[is_digit digit_val daysIn time_Date Z.mul Z.add Z.leb Z.ltb].
  rewrite H1. cbn -[is_digit digit_val daysIn time_Date Z.mul Z.add Z.leb Z.ltb].
  rewrite H2, H3, H4.
  cbn -[is_digit digit_val daysIn time_Date Z.mul Z.add Z.leb Z.ltb].
  rewrite H5, H6.
  destruct ((digit_val c5 * 10 + digit_val c6 <=? 0)
            || (12 <? digit_val c5 * 10 + digit_val c6)); [reflexivity |].
  cbn -[is_digit digit_val daysIn time_Date Z.mul Z.add Z.leb Z.ltb].
  rewrite H7, H8.
  cbn -[is_digit digit_val daysIn time_Date Z.mul Z.add Z.leb Z.ltb].
  reflexivity.
Qed.

Lemma daysIn_le_31 (m y : Z) : 1 <= m <= 12 -> daysIn m y <= 31.
Proof.
  intros Hm. unfold daysIn. each_month m Hm; destruct (isLeap y); simpl; lia.
Qed.

Lemma time_Parse_date_digits (y m d : Z) :
  0 <= y <= 9999 -> valid_date y m d ->
  time_Parse_date (digits4 y +:+ "-" +:+ digits2 m +:+ "-" +:+ digits2 d)
  = inr (time_Date y m d 0 0 0 0 0).
Proof.
  intros Hy [Hm Hd]. pose proof (daysIn_le_31 m y Hm) as H31.
  change (digits4 y +:+ "-" +:+ digits2 m +:+ "-" +:+ digits2 d)
    with (dateText (utod (y / 1000)) (utod (y / 100 mod 10))
            (utod (y / 10 mod 10)) (utod (y mod 10))
            (utod (m / 10)) (utod (m mod 10))
            (utod (d / 10)) (utod (d mod 10))).
  rewrite time_Parse_date_dateText
    by (apply is_digit_utod; Z.div_mod_to_equations; lia).
  rewrite !digit_val_utod by (Z.div_mod_to_equations; lia).
  replace ((((0 * 10 + y / 1000) * 10 + y / 100 mod 10) * 10
            + y / 10 mod 10) * 10 + y mod 10) with y
    by (Z.div_mod_to_equations; lia).
  replace (m / 10 * 10 + m mod 10) with m by (Z.div_mod_to_equations; lia).
  replace (d / 10 * 10 + d mod 10) with d by (Z.div_mod_to_equations; lia).
  destruct (Z.leb_spec m 0); [lia |]. destruct (Z.ltb_spec 12 m); [lia |].
  destruct (Z.ltb_spec d 1); [lia |].
  destruct (Z.ltb_spec (daysIn m y) d); [lia |]. reflexivity.
Qed.

Lemma time_Format_date_Date (y m d hh mm ss ns off : Z) :
  0 <= y <= 9999 -> valid_date y m d ->
  0 <= hh < 24 -> 0 <= mm < 60 -> 0 <= ss < 60 -> 0 <= ns < 1000000000 ->
  time_Format_date (time_Date y m d hh mm ss ns off)
  = digits4 y +:+ "-" +:+ digits2 m +:+ "-" +:+ digits2 d.
Proof.
  intros Hy Hv Hh Hmi Hs Hns. unfold time_Format_date.
  rewrite time_civil_Date by done.
  destruct Hv as [Hm Hd]. pose proof (daysIn_le_31 m y Hm) as H31.
  by rewrite appendInt_4, !appendInt_2 by lia.
Qed.

(** C1 (naming round-trip).  For every calendar date [y-m-d] with a
    four-digit year, and every time of day and zone of the instant that is
    formatted, the file name produced for that instant ends in ".log",
    [timeFromName] accepts it, and the time it returns is midnight UTC of
    the same calendar date: year, month and day come back unchanged and the
    time of day is discarded. *)
Theorem naming_round_trip (y m d hh mm ss ns off : Z) :
  0 <= y <= 9999 -> valid_date y m d ->
  0 <= hh < 24 -> 0 <= mm < 60 -> 0 <= ss < 60 -> 0 <= ns < 1000000000 ->
  timeFromName (fileNameFor (time_Date y m d hh mm ss ns off)) FileNameExt
    = inr (time_Date y m d 0 0 0 0 0)
  /\ time_civil (time_Date y m d 0 0 0 0 0) = (y, m, d)
  /\ abs_ns (time_Date y m d 0 0 0 0 0) mod NanosecondPerDay = 0.
Proof.
  intros Hy Hv Hh Hmi Hs Hns. split; [| split].
  - unfold timeFromName, fileNameFor.
    rewrite HasSuffix_app, trim_suffix_app. simpl negb. cbv iota.
    rewrite time_Format_date_Date by done.
    by apply time_Parse_date_digits.
  - apply time_civil_Date; [done | lia ..].
  - unfold time_Date, NanosecondPerDay, time_Second. simpl abs_ns.
    Z.div_mod_to_equations. lia.
Qed.

Lemma naming_round_trip_witness :
  timeFromName (fileNameFor (time_Date 2021 9 2 14 58 56 0 7200)) FileNameExt
    = inr (time_Date 2021 9 2 0 0 0 0 0)
  /\ time_civil (time_Date 2021 9 2 0 0 0 0 0) = (2021, 9, 2)
  /\ abs_ns (time_Date 2021 9 2 0 0 0 0 0) mod NanosecondPerDay = 0.
Proof.
  apply (naming_round_trip 2021 9 2 14 58 56 0 7200);
    first [lia | split; vm_compute; split; congruence].
Defined.

(** *** What [time_Parse_date] accepts *)

Lemma slice_from_4 (c1 c2 c3 c4 : ascii) (rest : string) :
  slice_from (String c1 (String c2 (String c3 (String c4 rest)))) 4 = rest.
Proof.
  unfold slice_from, len. cbn. rewrite Nat.sub_0_r. apply substring_0_all.
Qed.

Lemma slice_to_4 (c1 c2 c3 c4 : ascii) (rest : string) :
  slice_to (String c1 (String c2 (String c3 (String c4 rest)))) 4
  = String c1 (String c2 (String c3 (String c4 ""))).
Proof. unfold slice_to. cbn. by destruct rest. Qed.

Lemma skip_dash_Some (value rest : string) :
  skip_dash value = Some rest -> value = String "-" rest.
Proof.
  destruct value as [|c v]; simpl; [done |].
  destruct (Ascii.eqb_spec c "-"); [| done]. by intros [= ->]; subst.
Qed.

Lemma getnum_fixed_Some (value rest : string) (n : Z) :
  getnum value true = Some (n, rest) ->
  exists c0 c1, value = String c0 (String c1 rest)
    /\ is_digit c0 = true /\ is_digit c1 = true
    /\ n = digit_val c0 * 10 + digit_val c1.
Proof.
  destruct value as [|c0 [|c1 v]]; simpl; [done | |].
  - by destruct (is_digit c0).
  - destruct (is_digit c0) eqn:H0; [| done].
    destruct (is_digit c1) eqn:H1; [| done].
    intros [= <- <-]. by exists c0, c1.
Qed.

Lemma len_0_empty (s : string) : (0 <? len s)%nat = false -> s = "".
Proof. by destruct s. Qed.

Lemma time_Parse_date_inv (value : string) (t : Time) :
  time_Parse_date value = inr t ->
  exists c1 c2 c3 c4 c5 c6 c7 c8,
    value = dateText c1 c2 c3 c4 c5 c6 c7 c8
    /\ is_digit c1 = true /\ is_digit c2 = true /\ is_digit c3 = true
    /\ is_digit c4 = true /\ is_digit c5 = true /\ is_digit c6 = true
    /\ is_digit c7 = true /\ is_digit c8 = true.
Proof.
  unfold time_Parse_date.
  destruct value as [|c1 [|c2 [|c3 [|c4 rest]]]]; try done.
  rewrite slice_to_4, slice_from_4.
  match goal with |- context [if ?b then _ else _] => destruct b eqn:Hlen end;
    [done |].
  apply orb_false_elim in Hlen as [_ H1]. apply negb_false_iff in H1.
  unfold isDigit in H1. simpl in H1.
  unfold atoi. simpl leadingInt. rewrite H1.
  destruct (is_digit c2) eqn:H2; [| done].
  destruct (is_digit c3) eqn:H3; [| done].
  destruct (is_digit c4) eqn:H4; [| done].
  simpl.
  destruct (skip_dash rest) as [v1 |] eqn:Hs1; [| done].
  apply skip_dash_Some in Hs1 as ->.
  destruct (getnum v1 true) as [[month v2] |] eqn:Hg1; [| done].
  apply getnum_fixed_Some in Hg1 as (c5 & c6 & -> & H5 & H6 & ->).
  match goal with |- context [if ?b then _ else _] => destruct b end; [done |].
  destruct (skip_dash v2) as [v3 |] eqn:Hs2; [| done].
  apply skip_dash_Some in Hs2 as ->.
  destruct (getnum v3 true) as [[day v4] |] eqn:Hg2; [| done].
  apply getnum_fixed_Some in Hg2 as (c7 & c8 & -> & H7 & H8 & ->).
  destruct (0 <? len v4)%nat eqn:Hrest; [done |].
  apply len_0_empty in Hrest as ->.
  intros _. by exists c1, c2, c3, c4, c5, c6, c7, c8.
Qed.

(** A time that [time_Parse_date] returns is midnight UTC of a calendar
    date with a four-digit year, and the text that was parsed is the
    text of that date. *)
Lemma time_Parse_date_sound (value : string) (t : Time) :
  time_Parse_date value = inr t ->
  exists y m d,
    0 <= y <= 9999 /\ valid_date y m d
    /\ t = time_Date y m d 0 0 0 0 0
    /\ value = digits4 y +:+ "-" +:+ digits2 m +:+ "-" +:+ digits2 d.
Proof.
  intros Hp.
  destruct (time_Parse_date_inv _ _ Hp)
    as (c1 & c2 & c3 & c4 & c5 & c6 & c7 & c8 & -> & H1 & H2 & H3 & H4 & H5
        & H6 & H7 & H8).
  rewrite time_Parse_date_dateText in Hp by done. cbv zeta in Hp.
  pose proof (digit_val_range _ H1). pose proof (digit_val_range _ H2).
  pose proof (digit_val_range _ H3). pose proof (digit_val_range _ H4).
  pose proof (digit_val_range _ H5). pose proof (digit_val_range _ H6).
  pose proof (digit_val_range _ H7). pose proof (digit_val_range _ H8).
  set (y := (((0 * 10 + digit_val c1) * 10 + digit_val c2) * 10
             + digit_val c3) * 10 + digit_val c4) in *.
  set (m := digit_val c5 * 10 + digit_val c6) in *.
  set (d := digit_val c7 * 10 + digit_val c8) in *.
  destruct (Z.leb_spec m 0); [done |]. destruct (Z.ltb_spec 12 m); [done |].
  destruct (Z.ltb_spec d 1); [done |].
  destruct (Z.ltb_spec (daysIn m y) d); [done |].
  simpl in Hp. injection Hp as <-.
  exists y, m, d. split; [subst y; lia |]. split; [split; lia |].
  split; [done |].
  unfold digits4, digits2, dateText.
  replace (y / 1000) with (digit_val c1) by (subst y; Z.div_mod_to_equations; lia).
  replace (y / 100 mod 10) with (digit_val c2)
    by (subst y; Z.div_mod_to_equations; lia).
  replace (y / 10 mod 10) with (digit_val c3)
    by (subst y; Z.div_mod_to_equations; lia).
  replace (y mod 10) with (digit_val c4) by (subst y; Z.div_mod_to_equations; lia).
  replace (m / 10) with (digit_val c5) by (subst m; Z.div_mod_to_equations; lia).
  replace (m mod 10) with (digit_val c6) by (subst m; Z.div_mod_to_equations; lia).
  replace (d / 10) with (digit_val c7) by (subst d; Z.div_mod_to_equations; lia).
  replace (d mod 10) with (digit_val c8) by (subst d; Z.div_mod_to_equations; lia).
  by rewrite !utod_digit_val by done.
Qed.

(** Two texts that parse to the same instant are the same text. *)
Lemma time_Parse_date_inj (v1 v2 : string) (t1 t2 : Time) :
  time_Parse_date v1 = inr t1 -> time_Parse_date v2 = inr t2 ->
  abs_ns t1 = abs_ns t2 -> v1 = v2.
Proof.
  intros (y1 & m1 & d1 & Hy1 & Hv1 & -> & ->)%time_Parse_date_sound
         (y2 & m2 & d2 & Hy2 & Hv2 & -> & ->)%time_Parse_date_sound Habs.
  assert (Heq : time_Date y1 m1 d1 0 0 0 0 0 = time_Date y2 m2 d2 0 0 0 0 0).
  { unfold time_Date in *. simpl in Habs. by rewrite Habs. }
  assert (Hd1 : time_civil (time_Date y1 m1 d1 0 0 0 0 0) = (y1, m1, d1))
    by (apply time_civil_Date; [done | lia ..]).
  assert (Hd2 : time_civil (time_Date y2 m2 d2 0 0 0 0 0) = (y2, m2, d2))
    by (apply time_civil_Date; [done | lia ..]).
  rewrite Heq, Hd2 in Hd1. by injection Hd1 as -> -> ->.
Qed.

(** ** Decoded entries and their logical names *)

Lemma app_assoc_string (s t u : string) : (s +:+ t) +:+ u = s +:+ (t +:+ u).
Proof.
  induction s as [|c s IH]; [done |]. rewrite !app_String. by rewrite IH.
Qed.

Lemma app_cancel_r (s1 s2 t : string) : s1 +:+ t = s2 +:+ t -> s1 = s2.
Proof.
  intros H.
  assert (Hlen : String.length s1 = String.length s2).
  { apply (f_equal String.length) in H. rewrite !string_length_app in H. lia. }
  rewrite <- (substring_0_app s1 t), <- (substring_0_app s2 t).
  by rewrite H, Hlen.
Qed.

Lemma Time_eqb_eq (t u : Time) : Time_eqb t u = true -> t = u.
Proof.
  destruct t, u. unfold Time_eqb. simpl.
  intros [H1 H2]%andb_prop. apply Z.eqb_eq in H1, H2. by subst.
Qed.

Lemma timeFromName_inr (name ext : string) (t : Time) :
  timeFromName name ext = inr t ->
  exists text, name = text +:+ ext /\ time_Parse_date text = inr t.
Proof.
  unfold timeFromName. destruct (strings_HasSuffix name ext) eqn:Hs; [| done].
  simpl. intros Hp. exists (trim_suffix_len name ext).
  split; [by apply HasSuffix_inv | done].
Qed.

Lemma HasSuffix_date_log (text : string) (t : Time) :
  time_Parse_date text = inr t ->
  strings_HasSuffix (text +:+ FileNameExt) CompressSuffix = false.
Proof.
  intros (c1 & c2 & c3 & c4 & c5 & c6 & c7 & c8 & -> & _)%time_Parse_date_inv.
  reflexivity.
Qed.

(** A decoded entry is named by the text of its time followed by ".log"
    or ".log.gz"; either way its logical name is that text followed by
    ".log". *)
Lemma isDecoded_logicalName (f : logInfo) :
  isDecoded f = true ->
  exists text,
    time_Parse_date text = inr (timestamp f)
    /\ logicalName f = text +:+ FileNameExt.
Proof.
  unfold isDecoded. intros [_ H]%andb_prop. unfold logicalName.
  destruct (timeFromName (Name f) FileNameExt) as [e | t] eqn:H1.
  - destruct (timeFromName (Name f) (FileNameExt +:+ CompressSuffix))
      as [e' | t] eqn:H2; [done |].
    apply Time_eqb_eq in H as <-.
    apply timeFromName_inr in H2 as (text & Hn & Hp).
    exists text. split; [done |].
    rewrite Hn, <- app_assoc_string.
    by rewrite HasSuffix_app, trim_suffix_app.
  - apply Time_eqb_eq in H as <-.
    apply timeFromName_inr in H1 as (text & Hn & Hp).
    exists text. split; [done |].
    by rewrite Hn, (HasSuffix_date_log _ _ Hp).
Qed.

(** Decoded entries have the same logical name exactly when they carry
    the same instant. *)
Lemma isDecoded_same_name (f g : logInfo) :
  isDecoded f = true -> isDecoded g = true ->
  logicalName f = logicalName g <->
  abs_ns (timestamp f) = abs_ns (timestamp g).
Proof.
  intros (tf & Hpf & Hnf)%isDecoded_logicalName
         (tg & Hpg & Hng)%isDecoded_logicalName.
  rewrite Hnf, Hng. split.
  - intros ->%app_cancel_r. rewrite Hpf in Hpg. by injection Hpg as ->.
  - intros Habs. by rewrite (time_Parse_date_inj _ _ _ _ Hpf Hpg Habs).
Qed.

(** ** Lists sorted newest first *)

Lemma newestFirst_cons (f : logInfo) (l : list logInfo) :
  newestFirst (f :: l) = true ->
  newestFirst l = true
  /\ Forall (fun g => abs_ns (timestamp g) <= abs_ns (timestamp f)) l.
Proof.
  revert f. induction l as [|g l IH]; intros f H; [by split |].
  simpl in H. apply andb_prop in H as [Hfg Hl].
  destruct (IH g Hl) as [Hl' Hall]. split; [done |].
  unfold byFormatTime_Less, time_Before in Hfg.
  apply negb_true_iff, Z.ltb_ge in Hfg.
  constructor; [done |].
  eapply Forall_impl; [exact Hall | simpl; intros; lia].
Qed.

Lemma newestFirst_app (l1 l2 : list logInfo) :
  newestFirst (l1 ++ l2) = true ->
  forall f g, f ∈ l1 -> g ∈ l2 ->
    abs_ns (timestamp g) <= abs_ns (timestamp f).
Proof.
  induction l1 as [|x l1 IH]; intros H f g Hf Hg; [by apply elem_of_nil in Hf |].
  rewrite <- app_comm_cons in H.
  apply newestFirst_cons in H as [Hrest Hall].
  apply elem_of_cons in Hf as [-> | Hf]; [| by apply IH].
  rewrite Forall_forall in Hall. apply Hall. apply elem_of_app. by right.
Qed.

Lemma newestFirst_tail (f : logInfo) (l : list logInfo) :
  newestFirst (f :: l) = true ->
  forall g, g ∈ l -> abs_ns (timestamp g) <= abs_ns (timestamp f).
Proof.
  intros [_ Hall]%newestFirst_cons g Hg. rewrite Forall_forall in Hall. auto.
Qed.

(** *** What a scan of the directory returns *)

Lemma Time_eqb_refl (t : Time) : Time_eqb t t = true.
Proof. unfold Time_eqb. by rewrite !Z.eqb_refl. Qed.

Lemma decodeEntries_decoded (entries : list FileInfo) :
  forallb isDecoded (decodeEntries entries) = true.
Proof.
  induction entries as [|e entries IH]; [done |]. simpl.
  destruct (fi_IsDir e) eqn:Hdir; [done |].
  destruct (timeFromName (fi_Name e) FileNameExt) as [err | t] eqn:H1.
  - destruct (timeFromName (fi_Name e) (FileNameExt +:+ CompressSuffix))
      as [err' | t] eqn:H2; [done |].
    simpl. rewrite IH, andb_true_r. unfold isDecoded, Name. simpl.
    by rewrite Hdir, H1, H2, Time_eqb_refl.
  - simpl. rewrite IH, andb_true_r. unfold isDecoded, Name. simpl.
    by rewrite Hdir, H1, Time_eqb_refl.
Qed.

Lemma insertNewestFirst_forallb (P : logInfo -> bool) (x : logInfo)
    (l : list logInfo) :
  P x = true -> forallb P l = true ->
  forallb P (insertNewestFirst x l) = true.
Proof.
  intros Hx. induction l as [|y l IH]; simpl; [by rewrite Hx |].
  intros [Hy Hl]%andb_prop.
  destruct (byFormatTime_Less y x); simpl.
  - by rewrite Hx, Hy, Hl.
  - by rewrite Hy, IH.
Qed.

Lemma newestFirst_cons2 (x y : logInfo) (l : list logInfo) :
  newestFirst (x :: y :: l)
  = negb (byFormatTime_Less x y) && newestFirst (y :: l).
Proof. reflexivity. Qed.

Lemma insertNewestFirst_sorted (x : logInfo) (l : list logInfo) :
  newestFirst l = true -> newestFirst (insertNewestFirst x l) = true.
Proof.
  induction l as [|y l IH]; [done |]. intros Hl.
  cbn [insertNewestFirst].
  destruct (byFormatTime_Less y x) eqn:Hyx.
  - rewrite newestFirst_cons2, Hl, andb_true_r.
    unfold byFormatTime_Less, time_Before in *.
    apply Z.ltb_lt in Hyx. apply negb_true_iff, Z.ltb_ge. lia.
  - destruct l as [|z l];
      [cbn [insertNewestFirst]; by rewrite newestFirst_cons2, Hyx |].
    rewrite newestFirst_cons2 in Hl. apply andb_prop in Hl as [Hyz Hl].
    specialize (IH Hl). cbn [insertNewestFirst] in *.
    destruct (byFormatTime_Less z x).
    + by rewrite newestFirst_cons2, Hyx, IH.
    + by rewrite newestFirst_cons2, Hyz, IH.
Qed.

Lemma sortNewestFirst_spec (P : logInfo -> bool) (l : list logInfo) :
  forallb P l = true ->
  forallb P (sortNewestFirst l) = true
  /\ newestFirst (sortNewestFirst l) = true.
Proof.
  unfold sortNewestFirst.
  assert (Hgen : forall acc,
    forallb P acc = true -> newestFirst acc = true -> forallb P l = true ->
    forallb P (fold_left (fun acc x => insertNewestFirst x acc) l acc) = true
    /\ newestFirst (fold_left (fun acc x => insertNewestFirst x acc) l acc)
       = true).
  { induction l as [|x l IH]; intros acc Hacc Hs Hl; [done |].
    simpl in Hl. apply andb_prop in Hl as [Hx Hl]. simpl.
    apply IH; [by apply insertNewestFirst_forallb
              | by apply insertNewestFirst_sorted | done]. }
  by apply Hgen.
Qed.

(** ** The deletion step *)

Lemma size_logicalNames_le (fs : list logInfo) :
  (distinctLogical fs <= length fs)%nat.
Proof.
  unfold distinctLogical, logicalNames.
  induction fs as [|f fs IH].
  - done.
  - rewrite fmap_cons, list_to_set_cons, size_union_alt, size_singleton.
    match goal with |- context [size (?X ∖ ?Y)] =>
      assert (size (X ∖ Y) <= size X)%nat by (apply subseteq_size; set_solver)
    end.
    simpl. lia.
Qed.

Lemma size_insert_ge (k : string) (m : gmap string bool) :
  (size m <= size (<[k := true]> m))%nat.
Proof. rewrite map_size_insert. destruct (m !! k); simpl; lia. Qed.

(** Once more than [MaxBackups] names are counted, every further file is
    marked for removal. *)
Lemma millPartition_saturated (B : Z) (rest : list logInfo) :
  forall (preserved : gmap string bool) (remove remaining : list logInfo),
    B < Z.of_nat (size preserved) ->
    millPartition B rest preserved remove remaining
    = (remove ++ rest, remaining).
Proof.
  induction rest as [|f rest IH]; intros preserved remove remaining Hsat; simpl.
  - by rewrite app_nil_r.
  - pose proof (size_insert_ge (logicalName f) preserved).
    destruct (Z.ltb_spec B (Z.of_nat (size (<[logicalName f := true]> preserved))));
      [| lia].
    rewrite IH by lia. by rewrite <- app_assoc.
Qed.

(** The loop keeps the longest prefix of the files with at most
    [MaxBackups] logical names and removes the rest; the first removed
    file, if any, carries a name that is not among the kept ones. *)
Lemma millPartition_spec (B : Z) (rest : list logInfo) :
  forall (preserved : gmap string bool) (remove remaining : list logInfo),
    Z.of_nat (size preserved) <= B ->
    exists kept dropped,
      rest = kept ++ dropped
      /\ millPartition B rest preserved remove remaining
         = (remove ++ dropped, remaining ++ kept)
      /\ Z.of_nat (size (dom preserved ∪ logicalNames kept)) <= B
      /\ (dropped = []
          \/ exists g dropped',
               dropped = g :: dropped'
               /\ (logicalName g ∉ dom preserved ∪ logicalNames kept)
               /\ Z.of_nat (size (dom preserved ∪ logicalNames kept)) = B).
Proof.
  induction rest as [|f rest IH]; intros preserved remove remaining Hle.
  - exists [], []. simpl. rewrite !app_nil_r.
    unfold logicalNames. rewrite fmap_nil, list_to_set_nil, union_empty_r_L, size_dom.
    repeat split; [done | by left].
  - simpl.
    destruct (Z.ltb_spec B (Z.of_nat (size (<[logicalName f := true]> preserved))))
      as [Hsat | Hroom].
    + exists [], (f :: rest). rewrite app_nil_r.
      unfold logicalNames.
      rewrite fmap_nil, list_to_set_nil, union_empty_r_L, size_dom.
      rewrite millPartition_saturated by done. rewrite <- app_assoc.
      repeat split; [done |]. right. exists f, rest.
      rewrite map_size_insert in Hsat.
      destruct (preserved !! logicalName f) eqn:Hlk; simpl in Hsat; [lia |].
      split; [done |]. rewrite union_empty_r_L, size_dom.
      split; [by apply not_elem_of_dom | lia].
    + destruct (IH (<[logicalName f := true]> preserved) remove
                  (remaining ++ [f]) Hroom)
        as (kept & dropped & -> & Heq & Hsize & Hdrop).
      exists (f :: kept), dropped.
      assert (Hsets :
        dom (<[logicalName f := true]> preserved) ∪ logicalNames kept
        = dom preserved ∪ logicalNames (f :: kept)).
      { unfold logicalNames.
        rewrite dom_insert_L, fmap_cons, list_to_set_cons. set_solver. }
      rewrite Hsets in Hsize, Hdrop.
      rewrite Heq, <- app_assoc. by repeat split.
Qed.

(** C2 (retention bound).  For every list of decoded entries sorted newest
    first and every [MaxBackups > 0], the deletion step of [millRunOnce]
    splits the list into a prefix that is kept and the rest that is marked
    for removal; the kept files make up at most [MaxBackups] logical files,
    and exactly [MaxBackups] of them when the directory holds more; every
    removed file is strictly older than every kept file and belongs to
    another logical file, so the kept logical files are the most recent
    ones and none of them is split. *)
Theorem retention_bound (B : Z) (files : list logInfo) :
  0 < B ->
  forallb isDecoded files = true ->
  newestFirst files = true ->
  let remove := fst (millSelectRemove B files) in
  let remaining := snd (millSelectRemove B files) in
  files = remaining ++ remove
  /\ Z.of_nat (distinctLogical remaining) <= B
  /\ distinctLogical remaining
     = Nat.min (Z.to_nat B) (distinctLogical files)
  /\ (forall f g, f ∈ remaining -> g ∈ remove ->
        byFormatTime_Less g f = true /\ logicalName g <> logicalName f).
Proof.
  intros HB Hdec Hsorted. unfold millSelectRemove.
  destruct (Z.ltb_spec 0 B); [| lia]. simpl andb.
  destruct (Z.ltb_spec B (Z.of_nat (length files))) as [Hmany | Hfew].
  - destruct (millPartition_spec B files ∅ [] [])
      as (kept & dropped & Hfiles & Heq & Hsize & Hdrop).
    { rewrite map_size_empty. lia. }
    rewrite Heq. simpl fst. simpl snd.
    rewrite dom_empty_L, union_empty_l_L in Hsize, Hdrop.
    fold (distinctLogical kept) in Hsize, Hdrop.
    split; [done |]. split; [done |].
    destruct Hdrop as [-> | (g0 & dropped' & -> & Hnew & Hfull)].
    + rewrite app_nil_r in Hfiles. subst kept.
      split; [lia |]. intros f g _ Hg. by apply elem_of_nil in Hg.
    + split.
      * assert (distinctLogical kept < distinctLogical files)%nat; [| lia].
        unfold distinctLogical, logicalNames. rewrite Hfiles, fmap_app.
        rewrite list_to_set_app_L, fmap_cons, list_to_set_cons.
        apply subset_size. fold (logicalNames kept).
        split; [set_solver |]. intros Hsub. apply Hnew, Hsub. set_solver.
      * intros f g Hf Hg.
        rewrite forallb_forall in Hdec.
        assert (Hdf : isDecoded f = true).
        { apply Hdec, list_elem_of_In. rewrite Hfiles. set_solver. }
        assert (Hdg0 : isDecoded g0 = true).
        { apply Hdec, list_elem_of_In. rewrite Hfiles. set_solver. }
        assert (Hdg : isDecoded g = true).
        { apply Hdec, list_elem_of_In. rewrite Hfiles. set_solver. }
        rewrite Hfiles in Hsorted.
        pose proof (newestFirst_app _ _ Hsorted f g0 Hf ltac:(set_solver)) as H0f.
        assert (Hgg0 : abs_ns (timestamp g) <= abs_ns (timestamp g0)).
        { apply elem_of_cons in Hg as [-> | Hg]; [lia |].
          assert (Hs' : newestFirst (g0 :: dropped') = true).
          { clear -Hsorted. induction kept as [|k kept IH]; [done |].
            rewrite <- app_comm_cons in Hsorted.
            by apply newestFirst_cons in Hsorted as [? _]; auto. }
          by apply (newestFirst_tail _ _ Hs'). }
        assert (Hne : logicalName f <> logicalName g0).
        { intros Heqn. apply Hnew. rewrite <- Heqn.
          unfold logicalNames. apply elem_of_list_to_set, list_elem_of_fmap.
          by exists f. }
        rewrite (isDecoded_same_name f g0 Hdf Hdg0) in Hne.
        assert (Hlt : abs_ns (timestamp g) < abs_ns (timestamp f)) by lia.
        split.
        -- unfold byFormatTime_Less, time_Before. by apply Z.ltb_lt.
        -- rewrite (isDecoded_same_name g f Hdg Hdf). lia.
  - simpl fst. simpl snd. rewrite app_nil_r.
    pose proof (size_logicalNames_le files).
    split; [done |]. split; [lia |]. split; [lia |].
    intros f g _ Hg. by apply elem_of_nil in Hg.
Qed.

Lemma retention_bound_witness :
  0 < 2
  /\ forallb isDecoded exampleFiles = true
  /\ newestFirst exampleFiles = true
  /\ (let remove := fst (millSelectRemove 2 exampleFiles) in
      let remaining := snd (millSelectRemove 2 exampleFiles) in
      exampleFiles = remaining ++ remove
      /\ Z.of_nat (distinctLogical remaining) <= 2
      /\ distinctLogical remaining
         = Nat.min (Z.to_nat 2) (distinctLogical exampleFiles)
      /\ (forall f g, f ∈ remaining -> g ∈ remove ->
            byFormatTime_Less g f = true /\ logicalName g <> logicalName f)).
Proof.
  split; [lia |]. split; [vm_compute; reflexivity |].
  split; [vm_compute; reflexivity |].
  apply (retention_bound 2 exampleFiles);
    [lia | vm_compute; reflexivity | vm_compute; reflexivity].
Defined.

(** ** The compression step *)

(** C3 (compression selection).  For a list of kept files sorted newest
    first with at least two entries, and compression enabled, the step
    returns without panic and marks exactly the files after the first that
    do not carry the ".gz" suffix; no file is newer than the first; and
    the uncompressed files of the list are the first one, if it is
    uncompressed, followed by the marked ones, so that once the marked
    files are compressed at most one uncompressed file is left. *)
Theorem compression_selection (files : list logInfo) :
  newestFirst files = true ->
  (2 <= length files)%nat ->
  exists latest temp compress,
    files = latest :: temp
    /\ millSelectCompress true files = Ret compress
    /\ compress = filter (fun f => uncompressed f = true) temp
    /\ (forall f, f ∈ compress <-> f ∈ temp /\ uncompressed f = true)
    /\ (forall g, g ∈ files -> byFormatTime_Less latest g = false)
    /\ filter (fun f => uncompressed f = true) files
       = filter (fun f => uncompressed f = true) [latest] ++ compress
    /\ (length (filter (fun f => uncompressed f = true) [latest]) <= 1)%nat.
Proof.
  intros Hsorted Hlen. destruct files as [|latest temp]; [simpl in Hlen; lia |].
  exists latest, temp, (filter (fun f => uncompressed f = true) temp).
  split; [done |]. split; [done |]. split; [done |].
  split; [intros f; rewrite list_elem_of_filter; tauto |].
  split.
  - intros g Hg. unfold byFormatTime_Less, time_Before. apply Z.ltb_ge.
    apply elem_of_cons in Hg as [-> | Hg]; [lia |].
    by apply (newestFirst_tail _ _ Hsorted).
  - split.
    + rewrite (filter_app _ [latest] temp). done.
    + rewrite filter_cons, filter_nil.
      destruct (decide (uncompressed latest = true)); simpl; lia.
Qed.

Lemma compression_selection_witness :
  newestFirst exampleFiles = true
  /\ (2 <= length exampleFiles)%nat
  /\ exists latest temp compress,
       exampleFiles = latest :: temp
       /\ millSelectCompress true exampleFiles = Ret compress
       /\ compress = filter (fun f => uncompressed f = true) temp
       /\ (forall f, f ∈ compress <-> f ∈ temp /\ uncompressed f = true)
       /\ (forall g, g ∈ exampleFiles -> byFormatTime_Less latest g = false)
       /\ filter (fun f => uncompressed f = true) exampleFiles
          = filter (fun f => uncompressed f = true) [latest] ++ compress
       /\ (length (filter (fun f => uncompressed f = true) [latest]) <= 1)%nat.
Proof.
  split; [vm_compute; reflexivity |]. split; [vm_compute; lia |].
  apply (compression_selection exampleFiles);
    [vm_compute; reflexivity | vm_compute; lia].
Defined.

(** ** The methods of the writer *)

Section MethodProperties.
Context {W : Type} {os : OS W}.

(** *** The error policy of a pass *)

Lemma keepFirst_firstError (err e : option error) (rs : list (option error)) :
  keepFirst (keepFirst err e) (firstError rs)
  = keepFirst err (firstError (e :: rs)).
Proof. destruct err, e; simpl; try done; by destruct (firstError rs). Qed.

Lemma keepFirst_None_l (e : option error) : keepFirst None e = e.
Proof. by destruct e. Qed.

Lemma removeLoop_runAll (remove : list logInfo) :
  forall (err : option error) (s : Logger * W),
    removeLoop remove err s =
    (let* rs := runAll (map ActDelete remove) in
     retM (keepFirst err (firstError rs))) s.
Proof.
  induction remove as [|f rest IH]; intros err s.
  - by destruct err.
  - simpl. unfold bindM.
    destruct (dir s) as [[d | msg] s1]; [| done].
    destruct (call (os_Remove (filepath_Join d (Name f))) s1)
      as [[e | msg] s2]; [| done].
    rewrite IH. unfold bindM.
    destruct (runAll (map ActDelete rest) s2) as [[rs | msg] s3]; [| done].
    unfold retM. by rewrite keepFirst_firstError.
Qed.

Lemma compressLoop_runAll (compress : list logInfo) :
  forall (err : option error) (s : Logger * W),
    compressLoop compress err s =
    (let* rs := runAll (map ActCompress compress) in
     retM (keepFirst err (firstError rs))) s.
Proof.
  induction compress as [|f rest IH]; intros err s.
  - by destruct err.
  - simpl. unfold bindM.
    destruct (dir s) as [[d | msg] s1]; [| done].
    destruct (compressLogFile (filepath_Join d (Name f))
                (filepath_Join d (Name f) +:+ CompressSuffix) s1)
      as [[e | msg] s2]; [| done].
    rewrite IH. unfold bindM.
    destruct (runAll (map ActCompress rest) s2) as [[rs | msg] s3]; [| done].
    unfold retM. by rewrite keepFirst_firstError.
Qed.

Lemma firstError_app (rs1 rs2 : list (option error)) :
  firstError (rs1 ++ rs2) = keepFirst (firstError rs1) (firstError rs2).
Proof.
  induction rs1 as [|[e |] rs1 IH]; simpl; [by destruct (firstError rs2) | done |].
  by rewrite IH.
Qed.

Lemma firstError_None (rs : list (option error)) :
  firstError rs = None <-> Forall (fun r => r = None) rs.
Proof.
  induction rs as [|[e |] rs IH]; simpl.
  - split; [constructor | done].
  - split; [done |]. intros He. apply Forall_cons_1 in He as [He _]. done.
  - rewrite IH. split; [by constructor |].
    intros He. by apply Forall_cons_1 in He as [_ He].
Qed.

Lemma runAll_app (acts1 acts2 : list Action) (s : Logger * W) :
  runAll (acts1 ++ acts2) s =
  (let* rs1 := runAll acts1 in
   let* rs2 := runAll acts2 in
   retM (rs1 ++ rs2)) s.
Proof.
  revert s. induction acts1 as [|a acts1 IH]; intros s.
  - simpl. unfold bindM, retM.
    by destruct (runAll acts2 s) as [[rs | msg] s'].
  - simpl. unfold bindM.
    destruct (runAction a s) as [[r | msg] s1]; [| done].
    rewrite IH. unfold bindM, retM.
    destruct (runAll acts1 s1) as [[rs1 | msg] s2]; [| done].
    by destruct (runAll acts2 s2) as [[rs2 | msg] s3].
Qed.

(** *** Computations that do not panic *)

Lemma returns_retM {A} (a : A) : returns (W := W) (retM a).
Proof. intros s. by exists a, s. Qed.

Lemma returns_bindM {A B} (m : M W A) (k : A -> M W B) :
  returns m -> (forall a, returns (k a)) -> returns (bindM m k).
Proof.
  intros Hm Hk s. destruct (Hm s) as (a & s1 & Hms).
  destruct (Hk a s1) as (b & s2 & Hks).
  exists b, s2. unfold bindM. by rewrite Hms.
Qed.

Lemma returns_call {A} (op : W -> A * W) : returns (call op).
Proof.
  intros [l w]. unfold call. simpl. destruct (op w) as [a w'].
  by exists a, (l, w').
Qed.

Lemma returns_getL : returns (W := W) getL.
Proof. intros s. by exists (fst s), s. Qed.

Lemma returns_modifyL (f : Logger -> Logger) : returns (W := W) (modifyL f).
Proof. intros s. by exists tt, (f (fst s), snd s). Qed.

Ltac returns_step :=
  first
    [ apply returns_retM
    | apply returns_call
    | apply returns_getL
    | apply returns_modifyL
    | apply returns_bindM; [| intros ?]
    | match goal with
      | |- returns (match ?x with _ => _ end) => destruct x
      | |- returns (if ?b then _ else _) => destruct b
      end ].

Lemma returns_dir : returns (W := W) dir.
Proof. unfold dir. repeat returns_step. Qed.

Lemma returns_compressCopy (f gzf : File) (src : string) :
  returns (compressCopy f gzf src).
Proof. unfold compressCopy. repeat returns_step. Qed.

Lemma returns_compressLogFile (src dst : string) :
  returns (compressLogFile src dst).
Proof.
  unfold compressLogFile.
  repeat first [apply returns_compressCopy | returns_step].
Qed.

Lemma returns_runAction (a : Action) : returns (runAction a).
Proof.
  destruct a; simpl;
    repeat first [apply returns_dir | apply returns_compressLogFile
                 | returns_step].
Qed.

Lemma returns_runAll (acts : list Action) : returns (runAll acts).
Proof.
  induction acts as [|a acts IH]; simpl;
    repeat first [apply returns_runAction | exact IH | returns_step].
Qed.

Lemma runAll_length (acts : list Action) :
  forall s rs s', runAll acts s = (Ret rs, s') -> length rs = length acts.
Proof.
  induction acts as [|a acts IH]; intros s rs s'; simpl.
  - by intros [= <- _].
  - unfold bindM, retM.
    destruct (runAction a s) as [[r | msg] s1]; [| done].
    destruct (runAll acts s1) as [[rs' | msg] s2] eqn:Hrun; [| done].
    intros [= <- _]. simpl. f_equal. by eapply IH.
Qed.

(** C4 (error policy of a mill pass).  For every list of files marked for
    removal and every list of files marked for compression, and for every
    behaviour of the operating system, the two loops that end
    [millRunOnce] do what running all the deletions and then all the
    compressions does, each action once and in order, none skipped
    because an earlier one failed; the pass returns the first error among
    the results of the actions, and nil when all succeeded. *)
Theorem mill_pass_error_policy (remove compress : list logInfo)
    (s : Logger * W) :
  exists rs s',
    runAll (map ActDelete remove ++ map ActCompress compress) s = (Ret rs, s')
    /\ length rs = (length remove + length compress)%nat
    /\ millExecute remove compress s = (Ret (firstError rs), s')
    /\ (firstError rs = None <-> Forall (fun r => r = None) rs).
Proof.
  destruct (returns_runAll
              (map ActDelete remove ++ map ActCompress compress) s)
    as (rs & s' & Hrun).
  exists rs, s'. split; [done |]. split.
  - rewrite (runAll_length _ _ _ _ Hrun), length_app, !length_map. done.
  - rewrite runAll_app in Hrun. revert Hrun.
    unfold millExecute. unfold bindM. rewrite removeLoop_runAll.
    unfold bindM.
    destruct (runAll (map ActDelete remove) s) as [[rs1 | msg] s1]; [| done].
    unfold retM. cbv beta iota. rewrite compressLoop_runAll.
    unfold bindM, retM.
    destruct (runAll (map ActCompress compress) s1) as [[rs2 | msg] s2];
      [| done].
    intros [= <- <-]. split; [| apply firstError_None].
    by rewrite firstError_app, keepFirst_None_l.
Qed.

(** *** Writing to an open file *)

(** C6 (no rotation while a file is open).  When the writer holds an open
    file, every sequence of calls of [Write] returns without panic, leaves
    the writer as it was, the handle included, and changes the world only
    through the writes of the records to that one file, in order: no file
    is closed or opened. *)
Theorem no_rotation_while_open (ps : list (list Byte.byte)) (l : Logger)
    (f : File) (w : W) :
  currentFile l = Some f ->
  writes ps (l, w)
  = (Ret (fst (fileWrites f ps w)), (l, snd (fileWrites f ps w))).
Proof.
  intros Hopen. revert w. induction ps as [|p ps IH]; intros w; [done |].
  simpl. unfold bindM at 1. unfold Write at 1.
  unfold bindM, getL, writeCurrent, call, retM. simpl. rewrite Hopen.
  unfold bindM, getL, call. simpl. rewrite Hopen. simpl.
  destruct (File_Write f p w) as [r w1]. rewrite IH.
  by destruct (fileWrites f ps w1) as [rs w2].
Qed.

(** *** Closing *)

(** C7 (closing is idempotent).  [Close] never panics.  With no file open
    it returns nil and changes nothing.  With a file open its only call is
    the close of that file, whose result it returns, and afterwards no
    file is open; the channel of the mill and the record that the mill
    goroutine was started are as before, so the goroutine is neither
    stopped nor waited for.  A second [Close] in a row therefore returns
    nil. *)
Theorem close_idempotent (l : Logger) (w : W) :
  Close (l, w)
  = match currentFile l with
    | None => (Ret None, (l, w))
    | Some f =>
        (Ret (fst (File_Close f w)),
         (set_currentFile None l, snd (File_Close f w)))
    end
  /\ (let l' := fst (snd (Close (l, w))) in
      currentFile l' = None
      /\ millCh l' = millCh l /\ startMill l' = startMill l)
  /\ (let s1 := snd (Close (l, w)) in Close s1 = (Ret None, s1)).
Proof.
  assert (Hclose : Close (l, w)
    = match currentFile l with
      | None => (Ret None, (l, w))
      | Some f =>
          (Ret (fst (File_Close f w)),
           (set_currentFile None l, snd (File_Close f w)))
      end).
  { unfold Close, close, bindM, getL, call, modifyL, retM. simpl.
    destruct (currentFile l) as [f |]; simpl; [| done].
    by destruct (File_Close f w) as [err w']. }
  split; [exact Hclose |]. rewrite Hclose.
  destruct (currentFile l) as [f |] eqn:Hcur; simpl.
  - split; [by repeat split |].
    unfold Close, close, bindM, getL. by simpl.
  - split; [by repeat split |].
    unfold Close, close, bindM, getL. simpl. by rewrite Hcur.
Qed.

(** *** The configuration *)

Lemma sameConfig_refl (l : Logger) : sameConfig l l.
Proof. unfold sameConfig. by repeat split; try left. Qed.

Lemma sameConfig_trans (l1 l2 l3 : Logger) :
  sameConfig l1 l2 -> sameConfig l2 l3 -> sameConfig l1 l3.
Proof.
  unfold sameConfig.
  intros (-> & -> & -> & -> & Hd1) (-> & -> & -> & -> & Hd2).
  repeat split. destruct Hd2 as [-> | ->]; [done | by right].
Qed.

Lemma keepsConfig_retM {A} (a : A) : keepsConfig (W := W) (retM a).
Proof. intros s. apply sameConfig_refl. Qed.

Lemma keepsConfig_liftRes {A} (r : Res A) : keepsConfig (W := W) (liftRes r).
Proof. intros s. apply sameConfig_refl. Qed.

Lemma keepsConfig_getL : keepsConfig (W := W) getL.
Proof. intros s. apply sameConfig_refl. Qed.

Lemma keepsConfig_call {A} (op : W -> A * W) : keepsConfig (call op).
Proof.
  intros [l w]. unfold call. simpl. destruct (op w). apply sameConfig_refl.
Qed.

Lemma keepsConfig_modifyL (f : Logger -> Logger) :
  (forall l, sameConfig l (f l)) -> keepsConfig (W := W) (modifyL f).
Proof. intros Hf s. apply Hf. Qed.

Lemma keepsConfig_bindM {A B} (m : M W A) (k : A -> M W B) :
  keepsConfig m -> (forall a, keepsConfig (k a)) -> keepsConfig (bindM m k).
Proof.
  intros Hm Hk s. unfold bindM. specialize (Hm s).
  destruct (m s) as [[a | msg] s1]; [| done].
  eapply sameConfig_trans; [exact Hm | apply Hk].
Qed.

Lemma sameConfig_set_currentFile (f : option File) (l : Logger) :
  sameConfig l (set_currentFile f l).
Proof. unfold sameConfig. simpl. by repeat split; try left. Qed.

Lemma sameConfig_set_millCh (c : option nat) (l : Logger) :
  sameConfig l (set_millCh c l).
Proof. unfold sameConfig. simpl. by repeat split; try left. Qed.

Lemma sameConfig_set_startMill (b : bool) (l : Logger) :
  sameConfig l (set_startMill b l).
Proof. unfold sameConfig. simpl. by repeat split; try left. Qed.

Lemma sameConfig_set_Directory_default (l : Logger) :
  sameConfig l (set_Directory DefaultLogDir l).
Proof. unfold sameConfig. simpl. repeat split. by right. Qed.

Ltac config_step :=
  first
    [ apply keepsConfig_retM
    | apply keepsConfig_liftRes
    | apply keepsConfig_call
    | apply keepsConfig_getL
    | apply keepsConfig_modifyL; intros ?;
      first [ apply sameConfig_set_currentFile
            | apply sameConfig_set_millCh
            | apply sameConfig_set_startMill
            | apply sameConfig_set_Directory_default
            | eapply sameConfig_trans;
              [apply sameConfig_set_millCh | apply sameConfig_set_startMill] ]
    | apply keepsConfig_bindM; [| intros ?]
    | match goal with
      | |- keepsConfig (match ?x with _ => _ end) => destruct x
      | |- keepsConfig (if ?b then _ else _) => destruct b
      end ].

Lemma keepsConfig_close : keepsConfig (W := W) close.
Proof. unfold close. repeat config_step. Qed.

Lemma keepsConfig_dir : keepsConfig (W := W) dir.
Proof. unfold dir. repeat config_step. Qed.

Lemma keepsConfig_mill : keepsConfig (W := W) mill.
Proof. unfold mill. repeat config_step. Qed.

Lemma keepsConfig_oldLogFiles : keepsConfig (W := W) oldLogFiles.
Proof. unfold oldLogFiles. repeat first [apply keepsConfig_dir | config_step]. Qed.

Lemma keepsConfig_compressLogFile (src dst : string) :
  keepsConfig (compressLogFile src dst).
Proof. unfold compressLogFile, compressCopy. repeat config_step. Qed.

Lemma keepsConfig_removeLoop (remove : list logInfo) (err : option error) :
  keepsConfig (removeLoop remove err).
Proof.
  revert err. induction remove as [|f rest IH]; intros err; simpl;
    repeat first [apply keepsConfig_dir | apply IH | config_step].
Qed.

Lemma keepsConfig_compressLoop (compress : list logInfo) (err : option error) :
  keepsConfig (compressLoop compress err).
Proof.
  revert err. induction compress as [|f rest IH]; intros err; simpl;
    repeat first [apply keepsConfig_dir | apply keepsConfig_compressLogFile
                 | apply IH | config_step].
Qed.

Lemma keepsConfig_millRunOnce : keepsConfig (W := W) millRunOnce.
Proof.
  unfold millRunOnce, millExecute.
  repeat first [apply keepsConfig_oldLogFiles | apply keepsConfig_removeLoop
               | apply keepsConfig_compressLoop | config_step].
Qed.

Lemma keepsConfig_newFileName : keepsConfig (W := W) newFileName.
Proof.
  unfold newFileName, now. repeat first [apply keepsConfig_dir | config_step].
Qed.

Lemma keepsConfig_openNew : keepsConfig (W := W) openNew.
Proof.
  unfold openNew.
  repeat first [apply keepsConfig_newFileName | apply keepsConfig_mill
               | config_step].
Qed.

Lemma keepsConfig_openExistingOrNew : keepsConfig (W := W) openExistingOrNew.
Proof.
  unfold openExistingOrNew, now.
  repeat first [apply keepsConfig_oldLogFiles | apply keepsConfig_openNew
               | apply keepsConfig_dir | config_step].
Qed.

Lemma keepsConfig_Write (p : list Byte.byte) : keepsConfig (Write p).
Proof.
  unfold Write, writeCurrent.
  repeat first [apply keepsConfig_openExistingOrNew | config_step].
Qed.

(** C8, as amended (the configuration under the operations).  Whatever the
    operating system does, after [Write], [Close] and a pass of the mill
    the fields [MaxDays], [MaxBackups], [LocalTime] and [Compress] are
    what they were, and [Directory] is what it was or has been replaced
    by the default directory "./Logs/". *)
Theorem configuration_preserved (p : list Byte.byte) (s : Logger * W) :
  sameConfig (fst s) (fst (snd (Write p s)))
  /\ sameConfig (fst s) (fst (snd (Close s)))
  /\ sameConfig (fst s) (fst (snd (millRunOnce s))).
Proof.
  split; [apply keepsConfig_Write |].
  split; [apply keepsConfig_close | apply keepsConfig_millRunOnce].
Qed.

End MethodProperties.

(** ** The writer on the in-memory file system *)

Lemma no_rotation_while_open_witness :
  currentFile openLogger = Some 3%nat
  /\ writes [hello; hello] (openLogger, openWorld)
     = (Ret (fst (fileWrites 3%nat [hello; hello] openWorld)),
        (openLogger, snd (fileWrites 3%nat [hello; hello] openWorld))).
Proof.
  split; [reflexivity |].
  apply (no_rotation_while_open [hello; hello] openLogger 3%nat openWorld).
  reflexivity.
Defined.

(** *** Names of new files *)

(** [newFileName] joins the directory and the name of the day, which is
    the day in UTC unless [LocalTime] is set. *)
Example newFileName_in_UTC_and_local :
  fst (newFileName (newLogger "./Logs/" 1 0 false false,
                    worldOf [(["Logs"], NDir)] earlyEast))
    = Ret "Logs/2021-09-01.log"
  /\ fst (newFileName (newLogger "./Logs/" 1 0 true false,
                       worldOf [(["Logs"], NDir)] earlyEast))
    = Ret "Logs/2021-09-02.log".
Proof. vm_compute. by split. Qed.

(** *** Cold open *)

(** With the directory written with its separator, the cold open finds
    today's log and reopens it for appending: the record lands behind the
    old content and the mill is not signalled. *)
Example cold_open_reopens_with_separator :
  let s := snd (Write hello (newLogger "logs/" 1 0 false false, logsWorld)) in
  fst (Write hello (newLogger "logs/" 1 0 false false, logsWorld))
    = Ret (5, None)
  /\ currentFile (fst s) = Some 3%nat
  /\ millCh (fst s) = None
  /\ nodeAt (snd s) ["logs"; "2021-09-01.log"] = Some (NFile (hello ++ hello)).
Proof. vm_compute. by repeat split. Qed.

(** C5 (cold-open decision), where the code departs from it.  The
    directory "logs" holds today's log and [MaxDays] is one day, so the
    newest file is within the window; but [openExistingOrNew] builds the
    path of the file as [l.dir() + latest.Name()], without a separator,
    and so asks for "logs2021-09-01.log".  That file does not exist: the
    open fails, [Write] returns the error and writes nothing, and no file
    is open afterwards. *)
Theorem cold_open_path_without_separator :
  Write hello (newLogger "logs" 1 0 false false, logsWorld)
  = (Ret (0, Some ENOENT), (newLogger "logs" 1 0 false false, logsWorld))
  /\ filepath_Join "logs" "2021-09-01.log" = "logs/2021-09-01.log"
  /\ "logs" +:+ "2021-09-01.log" = "logs2021-09-01.log".
Proof. vm_compute. by repeat split. Qed.

(** The product [MaxDays * NanosecondPerDay] is taken on 64 bits.  From
    106752 days on it wraps to a negative number, no age is below it, and
    the cold open truncates today's log instead of appending to it. *)
Example cold_open_MaxDays_overflow :
  Duration_mul 106752 NanosecondPerDay < 0
  /\ (let s := snd (Write hello
                      (newLogger "logs/" 106752 0 false false, logsWorld)) in
      millCh (fst s) = Some 1%nat
      /\ nodeAt (snd s) ["logs"; "2021-09-01.log"] = Some (NFile hello)).
Proof. vm_compute. by repeat split. Qed.

(** *** The directory *)

Section DirProperties.
Context {W : Type} {os : OS W}.

(** C9, as amended (directory auto-repair).  For every configured path
    and every behaviour of the operating system: when the path does not
    exist [dir] creates it; when that creation fails, or when the path
    exists and is not a directory, [dir] puts the default directory
    "./Logs/" in its place; in every case [dir] returns a path and
    reports no error of its own.  A path that cannot be examined for
    another reason is left as it is. *)
Theorem dir_auto_repair (l : Logger) (w : W) :
  dir (l, w) =
  match osStat (Directory l) w with
  | (inr fi, w1) =>
      if fi_IsDir fi then (Ret (Directory l), (l, w1))
      else (Ret DefaultLogDir, (set_Directory DefaultLogDir l, w1))
  | (inl err, w1) =>
      if os_IsNotExist err then
        match os_MkdirAll (Directory l) perm_0766 w1 with
        | (None, w2) => (Ret (Directory l), (l, w2))
        | (Some _, w2) =>
            (Ret DefaultLogDir, (set_Directory DefaultLogDir l, w2))
        end
      else (Ret (Directory l), (l, w1))
  end.
Proof.
  unfold dir, bindM, getL, call, modifyL, retM. simpl.
  destruct (osStat (Directory l) w) as [[err | fi] w1]; simpl.
  - destruct (os_IsNotExist err); simpl; [| done].
    by destruct (os_MkdirAll (Directory l) perm_0766 w1) as [[e |] w2].
  - by destruct (fi_IsDir fi).
Qed.

(** Every successful scan returns decoded entries sorted newest first:
    the lists that the properties of the deletion and compression steps
    are about. *)
Lemma oldLogFiles_decoded_sorted (s s' : Logger * W) (files : list logInfo) :
  oldLogFiles s = (Ret (inr files), s') ->
  forallb isDecoded files = true /\ newestFirst files = true.
Proof.
  unfold oldLogFiles, bindM, retM.
  destruct (dir s) as [[d | msg] s1]; [| done].
  destruct (call (ioutil_ReadDir d) s1) as [[[err | entries] | msg] s2];
    [done | | done].
  intros [= <- _]. apply sortNewestFirst_spec, decodeEntries_decoded.
Qed.

(** A pass of the mill with compression enabled panics whenever the scan
    of the directory finds no log file. *)
Lemma millRunOnce_panics_on_empty_scan (s s1 : Logger * W) :
  Compress (fst s) = true ->
  oldLogFiles s = (Ret (inr []), s1) ->
  millRunOnce s = (Panic "slice bounds out of range [1:0]", s1).
Proof.
  intros Hc Hscan. pose proof (keepsConfig_oldLogFiles s) as Hcfg.
  rewrite Hscan in Hcfg. destruct Hcfg as (_ & _ & _ & Hc1 & _).
  simpl in Hc1. rewrite Hc in Hc1.
  unfold millRunOnce, bindM, getL. rewrite Hc. simpl negb.
  rewrite andb_false_r, Hscan, Hc1.
  unfold millSelectRemove, liftRes. simpl.
  by destruct ((0 <? MaxBackups (fst s1))
               && (MaxBackups (fst s1) <? Z.of_nat 0)).
Qed.

End DirProperties.

(** C9 as stated fails: a fault of the configured path does reach the
    caller of [Write].  The path "app.cfg/logs" lies under a regular
    file; examining it fails with an error other than "does not exist",
    which [dir] repairs in no way, and [Write] returns the error of the
    scan. *)
Lemma directory_fault_reaches_Write :
  Write hello (newLogger "app.cfg/logs" 1 0 false false, cfgWorld)
  = (Ret (0, Some (Wrapf "can't read log currentFile directory: " ENOTDIR)),
     (newLogger "app.cfg/logs" 1 0 false false, cfgWorld)).
Proof. vm_compute. reflexivity. Qed.

(** The default directory is put in place but not created.  When the
    configured path "app.cfg" is a regular file and "./Logs/" does not
    exist, the scan of "./Logs/" fails and this [Write] returns its
    error. *)
Example default_directory_not_created :
  Write hello (newLogger "app.cfg" 1 0 false false, cfgWorld)
  = (Ret (0, Some (Wrapf "can't read log currentFile directory: " ENOENT)),
     (newLogger DefaultLogDir 1 0 false false, cfgWorld)).
Proof. vm_compute. reflexivity. Qed.

(** The next [Write] finds "./Logs/" missing, creates it, and goes
    through. *)
Example default_directory_second_Write :
  let s1 := snd (Write hello (newLogger "app.cfg" 1 0 false false, cfgWorld)) in
  fst (Write hello s1) = Ret (5, None)
  /\ nodeAt (snd (snd (Write hello s1))) ["Logs"; "2021-09-01.log"]
     = Some (NFile hello).
Proof. vm_compute. by repeat split. Qed.

(** C8 as stated fails: a [Write] on a writer whose configured path is a
    regular file leaves another [Directory] behind. *)
Lemma configuration_mutated_by_Write :
  Directory (fst (snd (Write hello
                         (newLogger "app.cfg" 1 0 false false, cfgWorld))))
  <> Directory (newLogger "app.cfg" 1 0 false false).
Proof. vm_compute. discriminate. Qed.

(** *** The mill *)

(** C10 (no fatal condition), where the code departs from it.  With
    compression enabled and no log file in the directory, the pass takes
    [files[1:]] of an empty slice and panics. *)
Theorem mill_pass_panics_on_empty_scan :
  millRunOnce (newLogger "./Logs/" 1 0 false true, emptyLogsWorld)
  = (Panic "slice bounds out of range [1:0]",
     (newLogger "./Logs/" 1 0 false true, emptyLogsWorld)).
Proof. vm_compute. reflexivity. Qed.

(** The same from the goroutine: [Write] makes today's log and signals
    the mill; the log is removed by someone else before the mill wakes
    up; the turn of [millRun] then panics, and nothing recovers it. *)
Example millRun_panics_after_external_removal :
  let s1 := snd (Write hello (newLogger "./Logs/" 1 0 false true,
                              emptyLogsWorld)) in
  let w2 := snd (mem_Remove "Logs/2021-09-01.log" (snd s1)) in
  millCh (fst s1) = Some 1%nat
  /\ fst (millRunStep (fst s1, w2)) = Panic "slice bounds out of range [1:0]".
Proof. vm_compute. by repeat split. Qed.

(** A pass on a directory that holds logs: with two backups and
    compression, the two newest logical files stay, the older ones are
    removed, and the second newest is compressed. *)
Example mill_pass_on_example :
  let w :=
    worldOf
      ((["Logs"], NDir)
       :: map (fun fi => (["Logs"; fi_Name fi],
                          if fi_IsDir fi then NDir else NFile hello))
            exampleListing) noon in
  let r := millRunOnce (newLogger "./Logs/" 1 2 false true, w) in
  fst r = Ret None
  /\ map fi_Name (entriesOf (snd (snd r)) ["Logs"])
     = ["2021-08-31.log.gz"; "2021-09-01.log"; "archive"; "notes.txt"].
Proof. vm_compute. by repeat split. Qed.

(** * Further properties *)

(** ** The calendar, from instants to dates *)

Lemma daysToYear_inverse (d : Z) :
  d = daysSinceEpoch (fst (daysToYear d)) + snd (daysToYear d)
  /\ 0 <= snd (daysToYear d) < yearLength (fst (daysToYear d)).
Proof.
  unfold daysToYear. cbv zeta. cbn [fst snd].
  set (a := d / 146097).
  set (d1 := d - 146097 * a).
  assert (Hd1 : 0 <= d1 < 146097) by (subst d1 a; Z.div_mod_to_equations; lia).
  set (b := d1 / 36524 - d1 / 36524 / 4).
  assert (Hb : 0 <= b < 4 /\ 36524 * b <= d1
               /\ (b < 3 -> d1 < 36524 * b + 36524))
    by (subst b; Z.div_mod_to_equations; lia).
  set (d2 := d1 - 36524 * b).
  set (c := d2 / 1461).
  assert (Hc : 0 <= c < 25 /\ 1461 * c <= d2 < 1461 * c + 1461)
    by (subst c d2; Z.div_mod_to_equations; lia).
  set (d3 := d2 - 1461 * c).
  set (e := d3 / 365 - d3 / 365 / 4).
  assert (He : 0 <= e < 4 /\ 365 * e <= d3 /\ (e < 3 -> d3 < 365 * e + 365))
    by (subst e d3; Z.div_mod_to_equations; lia).
  assert (Hy : 400 * a + 100 * b + 4 * c + e + 1 - 1
               = 400 * a + 100 * b + 4 * c + e) by lia.
  assert (Hdays : daysSinceEpoch (400 * a + 100 * b + 4 * c + e + 1)
                  = 146097 * a + 36524 * b + 1461 * c + 365 * e).
  { unfold daysSinceEpoch. cbv zeta. rewrite Hy. Z.div_mod_to_equations. lia. }
  rewrite Hdays. unfold yearLength.
  rewrite isLeap_decomposed by lia.
  split; [subst d3 d2 d1; lia |].
  destruct (Z.eqb_spec e 3); destruct (Z.eqb_spec c 24);
    destruct (Z.eqb_spec b 3); simpl; subst d3 d2; lia.
Qed.

Lemma ydayOf_onto (y yd : Z) :
  0 <= yd < yearLength y ->
  exists m dd, valid_date y m dd /\ ydayOf y m dd = yd.
Proof.
  unfold yearLength, valid_date, ydayOf, daysIn. intros H.
  destruct (isLeap y) eqn:Hleap.
  - destruct (Z_lt_le_dec yd 31); [exists 1, (yd + 1); simpl; lia |].
    destruct (Z_lt_le_dec yd 60); [exists 2, (yd - 31 + 1); simpl; lia |].
    destruct (Z_lt_le_dec yd 91); [exists 3, (yd - 60 + 1); simpl; lia |].
    destruct (Z_lt_le_dec yd 121); [exists 4, (yd - 91 + 1); simpl; lia |].
    destruct (Z_lt_le_dec yd 152); [exists 5, (yd - 121 + 1); simpl; lia |].
    destruct (Z_lt_le_dec yd 182); [exists 6, (yd - 152 + 1); simpl; lia |].
    destruct (Z_lt_le_dec yd 213); [exists 7, (yd - 182 + 1); simpl; lia |].
    destruct (Z_lt_le_dec yd 244); [exists 8, (yd - 213 + 1); simpl; lia |].
    destruct (Z_lt_le_dec yd 274); [exists 9, (yd - 244 + 1); simpl; lia |].
    destruct (Z_lt_le_dec yd 305); [exists 10, (yd - 274 + 1); simpl; lia |].
    destruct (Z_lt_le_dec yd 335); [exists 11, (yd - 305 + 1); simpl; lia |].
    exists 12, (yd - 335 + 1); simpl; lia.
  - destruct (Z_lt_le_dec yd 31); [exists 1, (yd + 1); simpl; lia |].
    destruct (Z_lt_le_dec yd 59); [exists 2, (yd - 31 + 1); simpl; lia |].
    destruct (Z_lt_le_dec yd 90); [exists 3, (yd - 59 + 1); simpl; lia |].
    destruct (Z_lt_le_dec yd 120); [exists 4, (yd - 90 + 1); simpl; lia |].
    destruct (Z_lt_le_dec yd 151); [exists 5, (yd - 120 + 1); simpl; lia |].
    destruct (Z_lt_le_dec yd 181); [exists 6, (yd - 151 + 1); simpl; lia |].
    destruct (Z_lt_le_dec yd 212); [exists 7, (yd - 181 + 1); simpl; lia |].
    destruct (Z_lt_le_dec yd 243); [exists 8, (yd - 212 + 1); simpl; lia |].
    destruct (Z_lt_le_dec yd 273); [exists 9, (yd - 243 + 1); simpl; lia |].
    destruct (Z_lt_le_dec yd 304); [exists 10, (yd - 273 + 1); simpl; lia |].
    destruct (Z_lt_le_dec yd 334); [exists 11, (yd - 304 + 1); simpl; lia |].
    exists 12, (yd - 334 + 1); simpl; lia.
Qed.

(** Every instant, in every zone, falls on a calendar date, and it lies
    within the day that starts at that date's day count. *)
Lemma time_civil_valid (t : Time) :
  exists y m d,
    time_civil t = (y, m, d) /\ valid_date y m d
    /\ (abs_ns t + zone_offset t * time_Second) / NanosecondPerDay
       = dateToDays y m d.
Proof.
  unfold time_civil.
  set (days := (abs_ns t + zone_offset t * time_Second) / NanosecondPerDay).
  destruct (daysToYear_inverse days) as [Hdays Hrange].
  destruct (daysToYear days) as [y yd]. cbn [fst snd] in *.
  destruct (ydayOf_onto y yd Hrange) as (m & dd & Hv & Hyd).
  exists y, m, dd. rewrite <- Hyd, ydayToMonthDay_ydayOf by done.
  split; [done |]. split; [done |].
  rewrite Hdays, <- Hyd. unfold dateToDays, ydayOf. lia.
Qed.

(** ** Names *)

(** X1 (the names [timeFromName] accepts).  [timeFromName] returns a time
    for a name and a suffix exactly when the name is the text of a
    calendar date with a four-digit year, in the form YYYY-MM-DD, followed
    by the suffix, and the time is then midnight UTC of that date; every
    other name is refused with an error. *)
Theorem timeFromName_accepts_iff (name ext : string) (t : Time) :
  timeFromName name ext = inr t <->
  exists y m d,
    0 <= y <= 9999 /\ valid_date y m d
    /\ name = (digits4 y +:+ "-" +:+ digits2 m +:+ "-" +:+ digits2 d) +:+ ext
    /\ t = time_Date y m d 0 0 0 0 0.
Proof.
  split.
  - intros (text & -> & Hp)%timeFromName_inr.
    apply time_Parse_date_sound in Hp as (y & m & d & Hy & Hv & -> & ->).
    by exists y, m, d.
  - intros (y & m & d & Hy & Hv & -> & ->).
    unfold timeFromName. rewrite HasSuffix_app, trim_suffix_app. simpl negb.
    cbv iota. by apply time_Parse_date_digits.
Qed.

(** X2 (decoding, then naming).  When [timeFromName] decodes a name with
    a suffix, formatting the decoded time as [newFileName] does and
    putting the suffix back gives the name again: no two names decode to
    the same time. *)
Theorem decoded_name_round_trip (name ext : string) (t : Time) :
  timeFromName name ext = inr t ->
  time_Format_date t +:+ ext = name
  /\ (ext = FileNameExt -> fileNameFor t = name).
Proof.
  intros (text & -> & Hp)%timeFromName_inr.
  apply time_Parse_date_sound in Hp as (y & m & d & Hy & Hv & -> & ->).
  assert (Hf : time_Format_date (time_Date y m d 0 0 0 0 0)
               = digits4 y +:+ "-" +:+ digits2 m +:+ "-" +:+ digits2 d)
    by (apply time_Format_date_Date; [done | done | lia ..]).
  split; [by rewrite Hf |]. intros ->. unfold fileNameFor. by rewrite Hf.
Qed.

Lemma decoded_name_round_trip_witness :
  timeFromName "2021-09-01.log.gz" ".log.gz"
    = inr (time_Date 2021 9 1 0 0 0 0 0)
  /\ time_Format_date (time_Date 2021 9 1 0 0 0 0 0) +:+ ".log.gz"
     = "2021-09-01.log.gz"
  /\ (".log.gz" = FileNameExt ->
      fileNameFor (time_Date 2021 9 1 0 0 0 0 0) = "2021-09-01.log.gz").
Proof.
  split; [vm_compute; reflexivity |].
  apply (decoded_name_round_trip "2021-09-01.log.gz" ".log.gz").
  vm_compute. reflexivity.
Defined.

(** X3 (every name the writer makes is one it recognises).  For every
    instant, in every zone, whose year has four digits, the name
    [newFileName] forms for it is accepted by [timeFromName] with the
    suffix ".log", and decodes to midnight UTC of the calendar date the
    instant falls on in its zone. *)
Theorem created_name_decodes (t : Time) :
  0 <= time_Year t <= 9999 ->
  timeFromName (fileNameFor t) FileNameExt = inr (midnightOfDate t)
  /\ time_civil (midnightOfDate t) = time_civil t.
Proof.
  unfold time_Year, midnightOfDate, fileNameFor, time_Format_date.
  destruct (time_civil_valid t) as (y & m & d & Hc & Hv & _).
  rewrite Hc. cbn [fst]. intros Hy.
  pose proof (daysIn_le_31 m y (proj1 Hv)) as H31.
  destruct Hv as [Hm Hd].
  rewrite appendInt_4, !appendInt_2 by lia.
  split.
  - unfold timeFromName. rewrite HasSuffix_app, trim_suffix_app. simpl negb.
    cbv iota. by apply time_Parse_date_digits.
  - apply time_civil_Date; [done | lia ..].
Qed.

Lemma created_name_decodes_witness :
  0 <= time_Year earlyEast <= 9999
  /\ timeFromName (fileNameFor earlyEast) FileNameExt
     = inr (midnightOfDate earlyEast)
  /\ time_civil (midnightOfDate earlyEast) = time_civil earlyEast.
Proof.
  split; [vm_compute; split; discriminate |].
  apply (created_name_decodes earlyEast). vm_compute. split; discriminate.
Defined.

(** ** The age of the newest file *)

Lemma isDecoded_midnight (f : logInfo) :
  isDecoded f = true -> abs_ns (timestamp f) mod NanosecondPerDay = 0.
Proof.
  intros (text & Hp & _)%isDecoded_logicalName.
  apply time_Parse_date_sound in Hp as (y & m & d & _ & _ & -> & _).
  unfold time_Date, NanosecondPerDay, time_Second. simpl abs_ns.
  Z.div_mod_to_equations. lia.
Qed.

(** X4 (the age test counts whole days).  For a decoded entry and a
    [MaxDays] from 0 to 106751, the test of [openExistingOrNew],
    [t.Sub(latest.timestamp) < MaxDays * NanosecondPerDay], holds exactly
    when the number of UTC days from the day of the file to the day of the
    instant [t] is below [MaxDays], whatever the time of day; neither the
    saturation of [Sub] nor the 64-bit product gets in the way in that
    range. *)
Theorem age_test_counts_days (t : Time) (latest : logInfo) (maxDays : Z) :
  isDecoded latest = true ->
  0 <= maxDays <= 106751 ->
  (time_Sub t (timestamp latest) <? Duration_mul maxDays NanosecondPerDay)
  = (dayNumber t - dayNumber (timestamp latest) <? maxDays).
Proof.
  intros Hmid%isDecoded_midnight HM.
  unfold time_Sub, Duration_mul, wrap64, dayNumber, maxDuration, minDuration,
    NanosecondPerDay, time_Second in *.
  set (a := abs_ns t) in *. set (b := abs_ns (timestamp latest)) in *.
  change (2 ^ 63) with 9223372036854775808.
  change (2 ^ 64) with 18446744073709551616.
  change (24 * 3600 * 1000000000) with 86400000000000 in *.
  assert (Hw : (maxDays * 86400000000000 + 9223372036854775808)
               mod 18446744073709551616 - 9223372036854775808
               = maxDays * 86400000000000)
    by (Z.div_mod_to_equations; lia).
  rewrite Hw.
  repeat match goal with
  | |- context [if ?x <? ?y then _ else _] => destruct (Z.ltb_spec x y)
  end;
  repeat match goal with
  | |- context [?x <? ?y] => destruct (Z.ltb_spec x y)
  end; try reflexivity; exfalso; Z.div_mod_to_equations; lia.
Qed.

Lemma age_test_counts_days_witness :
  isDecoded exampleEntry = true
  /\ 0 <= 1 <= 106751
  /\ (time_Sub noon (timestamp exampleEntry)
        <? Duration_mul 1 NanosecondPerDay)
     = (dayNumber noon - dayNumber (timestamp exampleEntry) <? 1).
Proof.
  split; [vm_compute; reflexivity |]. split; [lia |].
  apply (age_test_counts_days noon exampleEntry 1); [vm_compute; reflexivity | lia].
Defined.

(** ** The order of [byFormatTime] *)

(** X5 (ties in the sort order).  [Less] is a strict order: no entry is
    less than itself, and of two entries at most one is less than the
    other.  Two decoded entries are tied, neither less than the other,
    exactly when they have the same logical name, that is, when they are
    the log of one day, possibly once plain and once compressed; entries
    of different days are always ordered. *)
Theorem byFormatTime_ties (a b : logInfo) :
  isDecoded a = true -> isDecoded b = true ->
  byFormatTime_Less a a = false
  /\ byFormatTime_Less a b && byFormatTime_Less b a = false
  /\ (byFormatTime_Less a b = false /\ byFormatTime_Less b a = false
      <-> logicalName a = logicalName b).
Proof.
  intros Ha Hb. rewrite (isDecoded_same_name a b Ha Hb).
  unfold byFormatTime_Less, time_Before.
  split; [apply Z.ltb_irrefl |]. split.
  - destruct (Z.ltb_spec (abs_ns (timestamp a)) (abs_ns (timestamp b)));
      [| done].
    simpl. apply Z.ltb_ge. lia.
  - rewrite !Z.ltb_ge. lia.
Qed.

Lemma byFormatTime_ties_witness :
  isDecoded exampleEntry = true /\ isDecoded exampleEntryGz = true
  /\ byFormatTime_Less exampleEntry exampleEntry = false
  /\ byFormatTime_Less exampleEntry exampleEntryGz
     && byFormatTime_Less exampleEntryGz exampleEntry = false
  /\ (byFormatTime_Less exampleEntry exampleEntryGz = false
      /\ byFormatTime_Less exampleEntryGz exampleEntry = false
      <-> logicalName exampleEntry = logicalName exampleEntryGz).
Proof.
  split; [vm_compute; reflexivity |]. split; [vm_compute; reflexivity |].
  apply (byFormatTime_ties exampleEntry exampleEntryGz);
    vm_compute; reflexivity.
Defined.

Lemma swap_permutation (b : list logInfo) (i j : nat) (x y : logInfo) :
  (i < j)%nat -> b !! i = Some x -> b !! j = Some y ->
  <[j := x]> (<[i := y]> b) ≡ₚ b.
Proof.
  intros Hij Hi Hj.
  assert (Hlen : (j < length b)%nat) by (by eapply lookup_lt_Some).
  rewrite <- (take_drop_middle b i x Hi) at 2.
  assert (Hj' : drop (S i) b !! (j - S i)%nat = Some y).
  { rewrite lookup_drop. by replace (S i + (j - S i))%nat with j by lia. }
  rewrite <- (take_drop_middle (drop (S i) b) (j - S i) y Hj').
  rewrite <- (take_drop_middle b i x Hi) at 1.
  assert (Hti : length (take i b) = i) by (rewrite length_take; lia).
  rewrite insert_app_r_alt by lia. rewrite Hti, Nat.sub_diag. simpl.
  rewrite insert_app_r_alt by lia. rewrite Hti.
  replace (j - i)%nat with (S (j - S i)) by lia. simpl.
  rewrite <- (take_drop_middle (drop (S i) b) (j - S i) y Hj') at 1.
  assert (Htj : length (take (j - S i) (drop (S i) b)) = (j - S i)%nat).
  { rewrite length_take, length_drop. lia. }
  rewrite insert_app_r_alt by lia. rewrite Htj, Nat.sub_diag. simpl.
  apply Permutation_app_head.
  rewrite !(Permutation_middle _ _ x), !(Permutation_middle _ _ y).
  apply Permutation_app_head, perm_swap.
Qed.

(** X6 ([Swap] exchanges two entries).  For two indices within the
    slice, [Swap] does not panic; the slice keeps its length and its
    entries, as a rearrangement; the entries at the two indices have
    changed places and every other index holds what it held; a second
    [Swap] of the same indices restores the slice. *)
Theorem byFormatTime_Swap_exchanges (b : list logInfo) (i j : nat) :
  (i < byFormatTime_Len b)%nat -> (j < byFormatTime_Len b)%nat ->
  exists b',
    byFormatTime_Swap b i j = Ret b'
    /\ byFormatTime_Len b' = byFormatTime_Len b
    /\ b' ≡ₚ b
    /\ b' !! i = b !! j /\ b' !! j = b !! i
    /\ (forall k, k <> i -> k <> j -> b' !! k = b !! k)
    /\ byFormatTime_Swap b' i j = Ret b.
Proof.
  unfold byFormatTime_Len, byFormatTime_Swap. intros Hi Hj.
  destruct (lookup_lt_is_Some_2 b i Hi) as [x Hx].
  destruct (lookup_lt_is_Some_2 b j Hj) as [y Hy].
  rewrite Hx, Hy. exists (<[j := x]> (<[i := y]> b)).
  assert (Hlj : <[j := x]> (<[i := y]> b) !! j = Some x)
    by (apply list_lookup_insert_eq; rewrite length_insert; lia).
  assert (Hli : <[j := x]> (<[i := y]> b) !! i = Some y).
  { destruct (decide (i = j)) as [-> | Hne].
    - rewrite Hx in Hy. injection Hy as ->. exact Hlj.
    - rewrite list_lookup_insert_ne by done.
      by apply list_lookup_insert_eq. }
  split; [done |]. split; [by rewrite !length_insert |]. split.
  - destruct (Nat.lt_trichotomy i j) as [Hlt | [-> | Hgt]].
    + by apply swap_permutation.
    + rewrite Hx in Hy. injection Hy as ->.
      by rewrite list_insert_insert_eq, list_insert_id.
    + rewrite list_insert_insert_ne by lia. by apply swap_permutation.
  - split; [exact Hli |]. split; [exact Hlj |]. split.
    + intros k Hki Hkj. by rewrite !list_lookup_insert_ne by done.
    + rewrite Hli, Hlj. f_equal.
      apply list_eq. intros k.
      destruct (decide (k = j)) as [-> | Hkj].
      * rewrite list_lookup_insert_eq
          by (rewrite !length_insert; lia). done.
      * rewrite list_lookup_insert_ne by done.
        destruct (decide (k = i)) as [-> | Hki].
        -- rewrite list_lookup_insert_eq
             by (rewrite !length_insert; lia). done.
        -- by rewrite !list_lookup_insert_ne by done.
Qed.

Lemma byFormatTime_Swap_exchanges_witness :
  (0 < byFormatTime_Len exampleFiles)%nat
  /\ (3 < byFormatTime_Len exampleFiles)%nat
  /\ exists b',
       byFormatTime_Swap exampleFiles 0 3 = Ret b'
       /\ byFormatTime_Len b' = byFormatTime_Len exampleFiles
       /\ b' ≡ₚ exampleFiles
       /\ b' !! 0%nat = exampleFiles !! 3%nat
       /\ b' !! 3%nat = exampleFiles !! 0%nat
       /\ (forall k, k <> 0%nat -> k <> 3%nat -> b' !! k = exampleFiles !! k)
       /\ byFormatTime_Swap b' 0 3 = Ret exampleFiles.
Proof.
  split; [vm_compute; lia |]. split; [vm_compute; lia |].
  apply (byFormatTime_Swap_exchanges exampleFiles 0 3); vm_compute; lia.
Defined.

(** ** What the methods leave alone *)

Section Preservation.
Context {W : Type} {os : OS W}.
Variable R : Logger -> Logger -> Prop.
Hypothesis Rrefl : forall l, R l l.
Hypothesis Rtrans : forall l1 l2 l3, R l1 l2 -> R l2 l3 -> R l1 l3.

Lemma preservesL_retM {A} (a : A) : preservesL (W := W) R (retM a).
Proof using Rrefl. intros s. apply Rrefl. Qed.

Lemma preservesL_liftRes {A} (r : Res A) : preservesL (W := W) R (liftRes r).
Proof using Rrefl. intros s. apply Rrefl. Qed.

Lemma preservesL_getL : preservesL (W := W) R getL.
Proof using Rrefl. intros s. apply Rrefl. Qed.

Lemma preservesL_call {A} (op : W -> A * W) : preservesL R (call op).
Proof using Rrefl.
  intros [l w]. unfold call. simpl. destruct (op w). apply Rrefl.
Qed.

Lemma preservesL_modifyL (f : Logger -> Logger) :
  (forall l, R l (f l)) -> preservesL (W := W) R (modifyL f).
Proof using Type. intros Hf s. apply Hf. Qed.

Lemma preservesL_bindM {A B} (m : M W A) (k : A -> M W B) :
  preservesL R m -> (forall a, preservesL R (k a)) ->
  preservesL R (bindM m k).
Proof using Rtrans.
  intros Hm Hk s. unfold bindM. specialize (Hm s).
  destruct (m s) as [[a | msg] s1]; [| done].
  eapply Rtrans; [exact Hm | apply Hk].
Qed.

End Preservation.

Lemma sameHandle_refl (l : Logger) : sameHandle l l.
Proof. done. Qed.

Lemma sameHandle_trans (l1 l2 l3 : Logger) :
  sameHandle l1 l2 -> sameHandle l2 l3 -> sameHandle l1 l3.
Proof. unfold sameHandle. intros H1 H2. by rewrite H2. Qed.

Lemma sameMill_refl (l : Logger) : sameMill l l.
Proof. done. Qed.

Lemma sameMill_trans (l1 l2 l3 : Logger) :
  sameMill l1 l2 -> sameMill l2 l3 -> sameMill l1 l3.
Proof. unfold sameMill. intros [H1 H1'] [H2 H2']. by rewrite H2, H2'. Qed.

Lemma keepsMillWf_refl (l : Logger) : keepsMillWf l l.
Proof. by intros H. Qed.

Lemma keepsMillWf_trans (l1 l2 l3 : Logger) :
  keepsMillWf l1 l2 -> keepsMillWf l2 l3 -> keepsMillWf l1 l3.
Proof. unfold keepsMillWf. auto. Qed.

Ltac relation_side :=
  first
    [ exact sameHandle_refl | exact sameHandle_trans
    | exact sameMill_refl | exact sameMill_trans
    | exact keepsMillWf_refl | exact keepsMillWf_trans ].

(** One step through the structure of a method; [tac] settles what an
    update of the writer does to the relation. *)
Ltac preserves_step tac :=
  first
    [ apply preservesL_retM; relation_side
    | apply preservesL_liftRes; relation_side
    | apply preservesL_call; relation_side
    | apply preservesL_getL; relation_side
    | apply preservesL_modifyL; intros ?; tac
    | apply preservesL_bindM; [relation_side | | intros ?]
    | match goal with
      | |- preservesL _ (match ?x with _ => _ end) => destruct x
      | |- preservesL _ (if ?b then _ else _) => destruct b
      end ].

Ltac handle_update := by unfold sameHandle.
Ltac mill_update := by unfold sameMill.

Section Frames.
Context {W : Type} {os : OS W}.

Lemma dir_sameHandle : preservesL (W := W) sameHandle dir.
Proof. unfold dir. repeat preserves_step handle_update. Qed.

Lemma dir_sameMill : preservesL (W := W) sameMill dir.
Proof. unfold dir. repeat preserves_step mill_update. Qed.

Lemma oldLogFiles_sameHandle : preservesL (W := W) sameHandle oldLogFiles.
Proof.
  unfold oldLogFiles.
  repeat first [apply dir_sameHandle | preserves_step handle_update].
Qed.


Lemma mill_sameHandle : preservesL (W := W) sameHandle mill.
Proof. unfold mill. repeat preserves_step handle_update. Qed.





Lemma newFileName_sameHandle : preservesL (W := W) sameHandle newFileName.
Proof.
  unfold newFileName, now.
  repeat first [apply dir_sameHandle | preserves_step handle_update].
Qed.

(** *** Computations of the write path that do not panic *)

Ltac no_panic_step :=
  first
    [ apply returns_retM
    | apply returns_call
    | apply returns_getL
    | apply returns_modifyL
    | apply returns_dir
    | apply returns_bindM; [| intros ?]
    | match goal with
      | |- returns (match ?x with _ => _ end) => destruct x
      | |- returns (if ?b then _ else _) => destruct b
      end ].

Lemma returns_mill : returns (W := W) mill.
Proof. unfold mill. repeat no_panic_step. Qed.

Lemma returns_oldLogFiles : returns (W := W) oldLogFiles.
Proof. unfold oldLogFiles. repeat no_panic_step. Qed.

Lemma returns_newFileName : returns (W := W) newFileName.
Proof. unfold newFileName, now. repeat no_panic_step. Qed.

Lemma returns_openNew : returns (W := W) openNew.
Proof.
  unfold openNew.
  repeat first [apply returns_newFileName | apply returns_mill | no_panic_step].
Qed.

Lemma returns_openExistingOrNew : returns (W := W) openExistingOrNew.
Proof.
  unfold openExistingOrNew, now.
  repeat first [apply returns_oldLogFiles | apply returns_openNew
               | no_panic_step].
Qed.

Lemma returns_removeLoop (remove : list logInfo) (err : option error) :
  returns (removeLoop remove err).
Proof.
  revert err. induction remove as [|f rest IH]; intros err; simpl;
    repeat first [apply IH | no_panic_step].
Qed.

Lemma returns_compressLoop (compress : list logInfo) (err : option error) :
  returns (compressLoop compress err).
Proof.
  revert err. induction compress as [|f rest IH]; intros err; simpl;
    repeat first [apply IH | apply returns_compressLogFile | no_panic_step].
Qed.

(** X10 (the write path does not panic).  For every state of the writer
    and every behaviour of the operating system, [Write], [Close] and
    [mill] return; a failure of the system comes back as an error value. *)
Theorem write_path_never_panics (p : list Byte.byte) (s : Logger * W) :
  (exists r s', Write p s = (Ret r, s'))
  /\ (exists r s', Close s = (Ret r, s'))
  /\ (exists s', mill s = (Ret tt, s')).
Proof.
  split; [| split].
  - assert (Hw : returns (Write p)); [| apply Hw].
    unfold Write, writeCurrent.
    repeat first [apply returns_openExistingOrNew | no_panic_step].
  - assert (Hc : returns (W := W) Close); [| apply Hc].
    unfold Close, close. repeat no_panic_step.
  - destruct (returns_mill s) as ([] & s' & H). by exists s'.
Qed.

(** *** Scanning the directory *)





(** *** A write with no file open *)

(** X8 (a failed scan reaches the caller).  With no file open, when
    [ioutil.ReadDir] fails on the directory that [dir] returned, [Write]
    returns zero bytes and that error behind the text "can't read log
    currentFile directory: ", opens no file, writes nothing, and does not
    signal the mill. *)
Theorem failed_scan_reaches_caller (p : list Byte.byte) (s s1 : Logger * W)
    (d : string) (err : error) (w2 : W) :
  currentFile (fst s) = None ->
  dir s = (Ret d, s1) ->
  ioutil_ReadDir d (snd s1) = (inl err, w2) ->
  Write p s
  = (Ret (0, Some (Wrapf "can't read log currentFile directory: " err)),
     (fst s1, w2))
  /\ currentFile (fst s1) = None
  /\ millCh (fst s1) = millCh (fst s)
  /\ startMill (fst s1) = startMill (fst s).
Proof.
  intros Hclosed Hdir Hread.
  pose proof (dir_sameHandle s) as Hh. pose proof (dir_sameMill s) as Hm.
  rewrite Hdir in Hh, Hm. unfold sameHandle, sameMill in *. simpl in Hh, Hm.
  split; [| by rewrite Hh].
  unfold Write, bindM, getL. rewrite Hclosed.
  unfold openExistingOrNew, bindM, oldLogFiles, bindM. rewrite Hdir.
  unfold call. by rewrite Hread.
Qed.

Lemma openNew_outcome (s : Logger * W) :
  exists err s',
    openNew s = (Ret err, s')
    /\ match err with
       | Some _ => currentFile (fst s') = currentFile (fst s)
       | None => exists f, currentFile (fst s') = Some f
       end.
Proof.
  unfold openNew, bindM.
  destruct (returns_newFileName s) as (name & s1 & Hname).
  pose proof (newFileName_sameHandle s) as Hh. rewrite Hname in Hh.
  rewrite Hname. unfold call at 1.
  destruct (os_OpenFile name (mkFlags true true true false) perm_0644 (snd s1))
    as [[err | f] w2]; [by eexists _, _ |].
  unfold modifyL at 1. cbn [fst snd].
  destruct (returns_mill (set_currentFile (Some f) (fst s1), w2))
    as ([] & s3 & Hmill).
  pose proof (mill_sameHandle (set_currentFile (Some f) (fst s1), w2)) as Hh2.
  rewrite Hmill in *. exists None, s3. split; [done |]. by exists f.
Qed.

Lemma openExistingOrNew_outcome (s : Logger * W) :
  exists err s',
    openExistingOrNew s = (Ret err, s')
    /\ match err with
       | Some _ => currentFile (fst s') = currentFile (fst s)
       | None => exists f, currentFile (fst s') = Some f
       end.
Proof.
  unfold openExistingOrNew, bindM.
  destruct (returns_oldLogFiles s) as (r & s1 & Hscan).
  pose proof (oldLogFiles_sameHandle s) as Hh. rewrite Hscan in Hh.
  unfold sameHandle in Hh. simpl in Hh.
  rewrite Hscan. destruct r as [err | [|latest rest]].
  - by exists (Some err), s1.
  - destruct (openNew_outcome s1) as (err & s2 & Hopen & Hout).
    exists err, s2. split; [done |]. destruct err; [congruence | done].
  - unfold now, bindM, getL, call, retM. cbn [fst snd].
    destruct (time_Now (snd s1)) as [t w2]. cbn [fst snd].
    match goal with |- context [if ?b then _ else _] => destruct b end.
    + pose proof (dir_sameHandle (fst s1, w2)) as Hd.
      destruct (returns_dir (fst s1, w2)) as (d & s3 & Hdir).
      rewrite Hdir in *. unfold sameHandle in Hd. simpl in Hd.
      destruct (os_OpenFile (d +:+ Name latest)
                  (mkFlags false true false true) perm_0644 (snd s3))
        as [[err | f] w4].
      * exists (Some err), (fst s3, w4). split; [done |]. simpl. congruence.
      * exists None, (set_currentFile (Some f) (fst s3), w4).
        split; [done |]. by exists f.
    + destruct (openNew_outcome (fst s1, w2)) as (err & s2 & Hopen & Hout).
      exists err, s2. split; [done |]. destruct err; [| done].
      simpl in Hout. congruence.
Qed.

(** X9 (the outcome of a write with no file open).  With no file open,
    [Write] ends in one of two ways, whatever the operating system does.
    Either the open failed: [Write] returns zero bytes and an error, and
    still no file is open.  Or a file is open afterwards, and what [Write]
    returns is what the write of the record to that file returned. *)
Theorem cold_write_outcome (p : list Byte.byte) (s : Logger * W) :
  currentFile (fst s) = None ->
  exists r s',
    Write p s = (Ret r, s')
    /\ ((currentFile (fst s') = None /\ fst r = 0 /\ is_Some (snd r))
        \/ (exists f w1,
              currentFile (fst s') = Some f
              /\ r = fst (File_Write f p w1)
              /\ snd s' = snd (File_Write f p w1))).
Proof.
  intros Hclosed. unfold Write, bindM, getL. rewrite Hclosed.
  destruct (openExistingOrNew_outcome s) as (err & s1 & Hopen & Hout).
  rewrite Hopen. destruct err as [e |].
  - exists (0, Some e), s1. split; [done |]. left.
    rewrite Hclosed in Hout. by repeat split.
  - destruct Hout as [f Hf].
    unfold writeCurrent, bindM, getL, call. rewrite Hf.
    destruct (File_Write f p (snd s1)) as [r w2] eqn:Hw.
    exists r, (fst s1, w2). split; [done |]. right.
    exists f, (snd s1). rewrite Hw. by repeat split.
Qed.

End Frames.

(** ** The mill and its channel *)

Section Mill.
Context {W : Type} {os : OS W}.

(** X11 (signals to the mill coalesce).  From every state the code can
    reach, [mill] returns with the goroutine started and exactly one
    signal waiting in the channel, and changes nothing else, in the writer
    or in the world; so calling [mill] again, any number of times before
    the goroutine wakes up, adds nothing. *)
Theorem mill_coalesces (s : Logger * W) :
  millWf (fst s) = true ->
  mill s
  = (Ret tt, (set_millCh (Some 1%nat) (set_startMill true (fst s)), snd s))
  /\ (mill >> mill) s = mill s.
Proof.
  intros Hwf.
  assert (Hmill : forall (l : Logger) (w : W), millWf l = true ->
    mill (l, w)
    = (Ret tt, (set_millCh (Some 1%nat) (set_startMill true l), w))).
  { intros l w Hl. unfold millWf in Hl.
    unfold mill, bindM, getL, modifyL, retM. cbn [fst snd].
    destruct l as [d md mb lt c cf ch st]. simpl in *.
    destruct ch as [[|[|n]] |], st; simpl in Hl; try done. }
  destruct s as [l w]. cbn [fst snd] in *.
  split; [by apply Hmill |].
  unfold bindM. rewrite (Hmill l w Hwf). rewrite Hmill; [| done].
  by destruct l.
Qed.







Lemma millPartition_keeps_prefix (B : Z) (rest : list logInfo) :
  forall (preserved : gmap string bool) (remove remaining : list logInfo),
    exists more,
      snd (millPartition B rest preserved remove remaining)
      = remaining ++ more.
Proof.
  induction rest as [|f rest IH]; intros preserved remove remaining; simpl.
  - exists []. by rewrite app_nil_r.
  - destruct (B <? Z.of_nat (size (<[logicalName f := true]> preserved))).
    + apply IH.
    + destruct (IH (<[logicalName f := true]> preserved) remove
                  (remaining ++ [f])) as [more ->].
      exists (f :: more). by rewrite <- app_assoc.
Qed.

(** The deletion step never empties a list that is not empty. *)
Lemma millSelectRemove_nonempty (B : Z) (files : list logInfo) :
  files <> [] -> snd (millSelectRemove B files) <> [].
Proof.
  intros Hne. unfold millSelectRemove.
  destruct (Z.ltb_spec 0 B) as [HB |]; [| done]. simpl andb.
  destruct (B <? Z.of_nat (length files)); [| done].
  destruct files as [|f rest]; [done |]. simpl.
  rewrite insert_empty, map_size_singleton.
  destruct (Z.ltb_spec B (Z.of_nat 1)); [lia |].
  destruct (millPartition_keeps_prefix B rest {[logicalName f := true]} []
              [f]) as [more ->].
  done.
Qed.

(** X13 (when a pass of the mill panics).  [millRunOnce] panics exactly
    when compression is enabled and the scan of the directory succeeds and
    finds no log file; the panic is the out-of-range slice [files[1:]], and
    nothing has been deleted or compressed.  In every other case the pass
    returns: with nothing to do, with the error of the scan, or with the
    first error of its actions. *)
Theorem millRunOnce_panics_iff (s s' : Logger * W) (msg : string) :
  millRunOnce s = (Panic msg, s') <->
  Compress (fst s) = true
  /\ oldLogFiles s = (Ret (inr []), s')
  /\ msg = "slice bounds out of range [1:0]".
Proof.
  split.
  - unfold millRunOnce, bindM at 1, getL. cbn [fst snd].
    destruct ((MaxBackups (fst s) =? 0) && negb (Compress (fst s))) eqn:Hgate;
      [done |].
    unfold bindM at 1.
    destruct (returns_oldLogFiles s) as (r & s1 & Hscan).
    pose proof (keepsConfig_oldLogFiles s) as Hcfg. rewrite Hscan in *.
    destruct Hcfg as (_ & HB & _ & Hc & _). cbn [fst snd] in HB, Hc.
    destruct r as [err | files]; [done |].
    unfold bindM at 1, getL. cbn [fst snd].
    pose proof (millSelectRemove_nonempty (MaxBackups (fst s1)) files) as Hne.
    destruct (millSelectRemove (MaxBackups (fst s1)) files)
      as [remove files'].
    cbn [snd] in Hne. unfold bindM at 1, liftRes.
    unfold millSelectCompress. rewrite Hc.
    destruct (Compress (fst s)) eqn:Hcomp.
    + destruct files' as [|latest temp].
      * intros [= <- <-]. destruct files as [|f files]; [done |].
        by destruct Hne.
      * intros Hrun. exfalso. revert Hrun. unfold millExecute, bindM.
        destruct (returns_removeLoop remove None s1) as (e1 & s2 & ->).
        by destruct (returns_compressLoop
                       (filter (fun f => uncompressed f = true) temp) e1 s2)
          as (e2 & s3 & ->).
    + intros Hrun. exfalso. revert Hrun. unfold millExecute, bindM.
      destruct (returns_removeLoop remove None s1) as (e1 & s2 & ->).
      by destruct (returns_compressLoop [] e1 s2) as (e2 & s3 & ->).
  - intros (Hc & Hscan & ->).
    by apply millRunOnce_panics_on_empty_scan.
Qed.

End Mill.

(** ** Compressing a log, call by call *)

Section Recording.
Context {W : Type} (os : OS W).

Lemma bindM_assoc {V A B C} (m : M V A) (k1 : A -> M V B) (k2 : B -> M V C)
    (s : Logger * V) :
  bindM (bindM m k1) k2 s = bindM m (fun a => bindM (k1 a) k2) s.
Proof.
  unfold bindM. destruct (m s) as [[a|msg] s']; reflexivity.
Qed.

Lemma bindM_retM {V A B} (a : A) (k : A -> M V B) (s : Logger * V) :
  bindM (retM a) k s = k a s.
Proof. reflexivity. Qed.

Lemma bindM_call_recorded {A B} (op : W -> A * W) (ev : A -> Event)
    (k : A -> M (W * list Event) B) (l : Logger) (w w' : W)
    (tr : list Event) (a : A) :
  op w = (a, w') ->
  bindM (call (recorded op ev)) k (l, (w, tr))
  = k a (l, (w', tr ++ [ev a])).
Proof.
  intros E. unfold bindM, call, recorded. cbn [fst snd].
  rewrite E. reflexivity.
Qed.

Ltac run_pure :=
  repeat (first [rewrite bindM_assoc | rewrite bindM_retM]; cbv beta iota).

Ltac run_call :=
  run_pure;
  match goal with
  | |- context [bindM (call (recorded ?op ?ev)) ?k (?l, (?w, ?tr))] =>
      let a := fresh "r" in
      let w' := fresh "w" in
      let E := fresh "E" in
      destruct (op w) as [a w'] eqn:E;
      rewrite (bindM_call_recorded op ev k l w w' tr a E);
      clear E; destruct a;
      cbn [isNil isOk opened]; cbv beta iota
  end.

(** X14 (a compression that succeeds).  When [compressLogFile] returns
    nil, these calls were made, in this order and all with success up to
    the removal of the source: the source was opened and examined, the
    owner of the destination set, the destination created or truncated,
    the content copied through the compressor, the compressor and the two
    files closed, and only then the source removed.  The two deferred
    closes follow, on files that are closed already. *)
Theorem compressLogFile_success_calls (src dst : string) (l : Logger)
    (w : W) (tr : list Event) :
  let r := compressLogFile (os := recordingOS os) src dst (l, (w, tr)) in
  fst r = Ret None ->
  exists f gzf c1 c2,
    traceOf (snd r)
    = tr ++ [ EvOpenFile src O_RDONLY (Some f); EvStat src true;
              EvChown dst true; EvOpenFile dst createTruncate (Some gzf);
              EvGzipCopy gzf f true; EvGzipClose gzf true;
              EvClose gzf true; EvClose f true; EvRemove src true;
              EvClose gzf c1; EvClose f c2 ].
Proof.
  cbv zeta. unfold compressLogFile, compressCopy.
  cbn [recordingOS osStat os_OpenFile os_Remove File_Close gzip_Copy
       gzip_Close chown].
  repeat run_call; run_pure; unfold retM, traceOf; cbn [fst snd];
    intros H; try discriminate H;
    do 4 eexists; rewrite <- !app_assoc; reflexivity.
Qed.


(** *** The record changes nothing *)

Lemma mirrors_retM {A} (a : A) : mirrors (W := W) (retM a) (retM a).
Proof. by intros s. Qed.

Lemma mirrors_liftRes {A} (r : Res A) :
  mirrors (W := W) (liftRes r) (liftRes r).
Proof. by intros s. Qed.

Lemma mirrors_getL : mirrors (W := W) getL getL.
Proof. by intros s. Qed.

Lemma mirrors_modifyL (f : Logger -> Logger) :
  mirrors (W := W) (modifyL f) (modifyL f).
Proof. by intros s. Qed.

Lemma mirrors_call {A} (op : W -> A * W) (ev : A -> Event) :
  mirrors (call op) (call (recorded op ev)).
Proof.
  intros [l [w tr]]. unfold call, recorded, forget. cbn [fst snd].
  by destruct (op w) as [a w'].
Qed.

Lemma mirrors_bindM {A B} (m : M W A) (m' : M (W * list Event) A)
    (k : A -> M W B) (k' : A -> M (W * list Event) B) :
  mirrors m m' -> (forall a, mirrors (k a) (k' a)) ->
  mirrors (bindM m k) (bindM m' k').
Proof.
  intros Hm Hk s. unfold bindM. destruct (Hm s) as [Hr Hs].
  destruct (m' s) as [r' s1']. destruct (m (forget s)) as [r s1].
  cbn [fst snd] in Hr, Hs. subst r' s1.
  destruct r as [a | msg]; [apply Hk | done].
Qed.

Ltac mirrors_step :=
  match goal with
  | |- mirrors (retM _) _ => apply mirrors_retM
  | |- mirrors (liftRes _) _ => apply mirrors_liftRes
  | |- mirrors getL _ => apply mirrors_getL
  | |- mirrors (modifyL _) _ => apply mirrors_modifyL
  | |- mirrors (call _) _ => apply mirrors_call
  | |- mirrors (bindM _ _) _ => apply mirrors_bindM; [| intros ?]
  | |- mirrors (match ?x with _ => _ end) _ => destruct x
  end.







(** *** What a pass of the mill touches *)

Lemma emits_retM {A} (I : Logger -> Prop) (P : Event -> Prop)
    (Q : A -> Prop) (a : A) :
  Q a -> emits (W := W) I P Q (retM a).
Proof.
  intros Ha s Hs. exists []. unfold retM. cbn [fst snd].
  rewrite app_nil_r. auto.
Qed.


Lemma emits_getL (I : Logger -> Prop) (P : Event -> Prop) :
  emits (W := W) I P I getL.
Proof.
  intros s Hs. exists []. unfold getL. cbn [fst snd].
  rewrite app_nil_r. auto.
Qed.

Lemma emits_modifyL (I : Logger -> Prop) (P : Event -> Prop)
    (f : Logger -> Logger) :
  (forall l, I l -> I (f l)) ->
  emits (W := W) I P (fun _ => True) (modifyL f).
Proof.
  intros Hf s Hs. exists []. unfold modifyL, traceOf. cbn [fst snd].
  rewrite app_nil_r. auto.
Qed.

Lemma emits_call {A} (I : Logger -> Prop) (P : Event -> Prop)
    (op : W -> A * W) (ev : A -> Event) :
  (forall a, P (ev a)) ->
  emits I P (fun _ => True) (call (recorded op ev)).
Proof.
  intros Hev [l [w tr]] Hs. unfold call, recorded, traceOf. cbn [fst snd].
  destruct (op w) as [a w']. cbn [fst snd]. exists [ev a]. auto.
Qed.

Lemma emits_bindM {A B} (I : Logger -> Prop) (P : Event -> Prop)
    (Q1 : A -> Prop) (Q2 : B -> Prop) (m : M (W * list Event) A)
    (k : A -> M (W * list Event) B) :
  emits I P Q1 m -> (forall a, Q1 a -> emits I P Q2 (k a)) ->
  emits I P Q2 (bindM m k).
Proof.
  intros Hm Hk s Hs. destruct (Hm s Hs) as (evs & Htr & Hev & HI & HQ).
  unfold bindM. destruct (m s) as [[a | msg] s1]; cbn [fst snd] in *.
  - destruct (Hk a HQ s1 HI) as (evs' & Htr' & Hev' & HI' & HQ').
    exists (evs ++ evs'). rewrite Htr', Htr, app_assoc.
    split; [reflexivity |]. split; [| auto].
    apply Forall_app; auto.
  - exists evs. auto.
Qed.

Lemma emits_weaken {A} (I : Logger -> Prop) (P : Event -> Prop)
    (Q Q' : A -> Prop) (m : M (W * list Event) A) :
  emits I P Q m -> (forall a, Q a -> Q' a) -> emits I P Q' m.
Proof.
  intros Hm HQ s Hs. destruct (Hm s Hs) as (evs & Htr & Hev & HI & Hres).
  exists evs. repeat split; auto.
  destruct (fst (m s)); auto.
Qed.

Section Pass.
Variable d0 : string.














End Pass.


(** *** What a write touches *)

Ltac calls_step :=
  match goal with
  | |- emits _ _ _ (retM _) => apply emits_retM; exact I
  | |- emits _ _ _ getL =>
      eapply emits_weaken; [apply emits_getL | intros ? _; exact I]
  | |- emits _ _ _ (modifyL _) => apply emits_modifyL; auto
  | |- emits _ _ _ (call (recorded _ _)) =>
      apply emits_call; intros ?; simpl; auto
  | |- emits _ _ _ (bindM _ _) =>
      eapply emits_bindM with (Q1 := fun _ => True); [| intros ? _]
  | |- emits _ _ _ (match ?x with _ => _ end) => destruct x
  end.

Lemma Write_emits (p : list Byte.byte) :
  emits (fun _ => True) writeEvent (fun _ => True)
    (Write (os := recordingOS os) p).
Proof.
  unfold Write, writeCurrent, openExistingOrNew, openNew, newFileName, now,
    oldLogFiles, dir, mill.
  cbn [recordingOS osStat os_MkdirAll ioutil_ReadDir os_OpenFile File_Write
       time_Now].
  repeat calls_step.
Qed.

Lemma Write_mirrors (p : list Byte.byte) :
  mirrors (Write p) (Write (os := recordingOS os) p).
Proof.
  unfold Write, writeCurrent, openExistingOrNew, openNew, newFileName, now,
    oldLogFiles, dir, mill.
  repeat mirrors_step.
Qed.

(** X17 (what a write touches).  Whatever the operating system answers, a
    [Write] removes no file, closes none, compresses none and changes no
    owner: its calls examine, create and list a directory, read the clock,
    open a file with the flags to append or with those to create and
    truncate, and write.  Removal and compression are left to the mill. *)
Theorem Write_removes_nothing (p : list Byte.byte) (l : Logger) (w : W)
    (tr : list Event) :
  let r := Write (os := recordingOS os) p (l, (w, tr)) in
  (exists evs, traceOf (snd r) = tr ++ evs /\ Forall writeEvent evs)
  /\ fst r = fst (Write p (l, w))
  /\ forget (snd r) = snd (Write p (l, w)).
Proof.
  cbv zeta. split; [| apply (Write_mirrors p (l, (w, tr)))].
  destruct (Write_emits p (l, (w, tr))) as (evs & Htr & Hev & _);
    [exact I |].
  by exists evs.
Qed.

(** *** A pass with compression off *)

Section Quiet.
Variable l0 : Logger.





End Quiet.


End Recording.

(** ** The properties on the in-memory file system *)


Lemma failed_scan_reaches_caller_witness :
  let s := (newLogger "app.cfg/logs" 1 0 false false, cfgWorld) in
  currentFile (fst s) = None
  /\ dir s = (Ret "app.cfg/logs", s)
  /\ ioutil_ReadDir "app.cfg/logs" (snd s) = (inl ENOTDIR, cfgWorld)
  /\ Write hello s
     = (Ret (0, Some (Wrapf "can't read log currentFile directory: " ENOTDIR)),
        (fst s, cfgWorld))
  /\ currentFile (fst s) = None
  /\ millCh (fst s) = millCh (fst s)
  /\ startMill (fst s) = startMill (fst s).
Proof.
  cbv zeta. split; [reflexivity |]. split; [vm_compute; reflexivity |].
  split; [vm_compute; reflexivity |].
  apply (failed_scan_reaches_caller hello
           (newLogger "app.cfg/logs" 1 0 false false, cfgWorld)
           (newLogger "app.cfg/logs" 1 0 false false, cfgWorld)
           "app.cfg/logs" ENOTDIR cfgWorld);
    vm_compute; reflexivity.
Defined.

Lemma cold_write_outcome_witness :
  let s := (newLogger "logs/" 1 0 false false, logsWorld) in
  currentFile (fst s) = None
  /\ exists r s',
       Write hello s = (Ret r, s')
       /\ ((currentFile (fst s') = None /\ fst r = 0 /\ is_Some (snd r))
           \/ (exists f w1,
                 currentFile (fst s') = Some f
                 /\ r = fst (File_Write f hello w1)
                 /\ snd s' = snd (File_Write f hello w1))).
Proof.
  cbv zeta. split; [reflexivity |].
  apply (cold_write_outcome hello
           (newLogger "logs/" 1 0 false false, logsWorld)).
  reflexivity.
Defined.

Lemma mill_coalesces_witness :
  let s := (newLogger "logs/" 1 0 false false, logsWorld) in
  millWf (fst s) = true
  /\ mill s
     = (Ret tt, (set_millCh (Some 1%nat) (set_startMill true (fst s)), snd s))
  /\ (mill >> mill) s = mill s.
Proof.
  cbv zeta. split; [reflexivity |].
  apply (mill_coalesces (newLogger "logs/" 1 0 false false, logsWorld)).
  reflexivity.
Defined.


Lemma compressLogFile_success_calls_witness :
  let r := compressLogFile (os := recordingOS MemOS)
             "logs/2021-09-01.log" "logs/2021-09-01.log.gz"
             (newLogger "logs" 1 0 false true, (logsWorld, [])) in
  fst r = Ret None
  /\ exists f gzf c1 c2,
       traceOf (snd r)
       = [] ++ [ EvOpenFile "logs/2021-09-01.log" O_RDONLY (Some f);
                 EvStat "logs/2021-09-01.log" true;
                 EvChown "logs/2021-09-01.log.gz" true;
                 EvOpenFile "logs/2021-09-01.log.gz" createTruncate (Some gzf);
                 EvGzipCopy gzf f true; EvGzipClose gzf true;
                 EvClose gzf true; EvClose f true;
                 EvRemove "logs/2021-09-01.log" true;
                 EvClose gzf c1; EvClose f c2 ].
Proof.
  cbv zeta. split; [vm_compute; reflexivity |].
  apply (compressLogFile_success_calls MemOS
           "logs/2021-09-01.log" "logs/2021-09-01.log.gz"
           (newLogger "logs" 1 0 false true) logsWorld []).
  vm_compute. reflexivity.
Defined.


